(** * theta_snapshot: token-holder snapshot tools

    A shallow embedding of the two programs of the repository,

    - [getTokenSnapshot] (the REST variant: paginated transfer fetch, ledger
      aggregation, dust filter, CSV export), and
    - [getTokenHolders] with [fetchWithRetry], [processBatch] and
      [fetchAllBalances] (the GraphQL variant, [index.ts] and its compiled
      [index.js]),

    together with the properties their specification states about them.

    JavaScript numbers are IEEE 754 binary64 values; they are modelled by
    Rocq's primitive floats, which are the same type.  Strings are sequences
    of code units below 256.  Console output is not modelled. *)

From Stdlib Require Import List String Ascii Bool Arith ZArith NArith Lia.
From Stdlib Require Import Permutation QArith Qcanon Floats.
From Equations Require Import Equations.
Import ListNotations.

Set Warnings "-inexact-float".
Local Close Scope Qc_scope.
Local Close Scope Q_scope.
Local Open Scope string_scope.
Local Open Scope list_scope.
Local Open Scope nat_scope.

(* ===================================================================== *)
(** * The JavaScript built-ins the programs call *)
(* ===================================================================== *)

Module JS.

(** The outcome of reading a numeric literal, before rounding to a double:
    not a number, an infinity, or the decimal [(-1)^neg * m * 10^e]. *)
Inductive Numeric :=
| NumNaN
| NumInf (neg : bool)
| NumDec (neg : bool) (m : N) (e : Z).

Definition codeOf (c : ascii) : nat := nat_of_ascii c.

(** WhiteSpace and LineTerminator code units below 256. *)
Definition isWhiteSpace (c : ascii) : bool :=
  existsb (Nat.eqb (codeOf c)) [9; 10; 11; 12; 13; 32; 160].

Definition isDigit (c : ascii) : bool :=
  (48 <=? codeOf c) && (codeOf c <=? 57).

(** [[a-fA-F0-9]] *)
Definition isHexDigit (c : ascii) : bool :=
  isDigit c
  || ((97 <=? codeOf c) && (codeOf c <=? 102))
  || ((65 <=? codeOf c) && (codeOf c <=? 70)).

Definition hexVal (c : ascii) : N :=
  let n := codeOf c in
  N.of_nat (if isDigit c then n - 48
            else if 97 <=? n then n - 87 else n - 55).

Fixpoint trimStart (l : list ascii) : list ascii :=
  match l with
  | c :: r => if isWhiteSpace c then trimStart r else l
  | [] => []
  end.

Definition trim (l : list ascii) : list ascii :=
  rev (trimStart (rev (trimStart l))).

(** The longest prefix of [l] whose characters satisfy [p], and the rest. *)
Fixpoint span (p : ascii -> bool) (l : list ascii)
  : list ascii * list ascii :=
  match l with
  | c :: r => if p c then let (ds, rest) := span p r in (c :: ds, rest)
              else ([], l)
  | [] => ([], [])
  end.

Definition digitsIn (base : N) (ds : list ascii) : N :=
  fold_left (fun acc d => (base * acc + hexVal d)%N) ds 0%N.

Fixpoint stripPrefix (p l : list ascii) : option (list ascii) :=
  match p, l with
  | [], _ => Some l
  | a :: p', b :: l' => if Ascii.eqb a b then stripPrefix p' l' else None
  | _ :: _, [] => None
  end.

(** ExponentPart, when one can be read at the head of [l]. *)
Definition readExponent (l : list ascii) : Z * list ascii :=
  match l with
  | c :: r =>
      if Ascii.eqb c "e" || Ascii.eqb c "E" then
        let (neg, r') :=
          match r with
          | s :: r' => if Ascii.eqb s "-" then (true, r')
                       else if Ascii.eqb s "+" then (false, r') else (false, r)
          | [] => (false, r)
          end in
        let (ds, rest) := span isDigit r' in
        match ds with
        | [] => (0%Z, l)
        | _ => let n := Z.of_N (digitsIn 10 ds) in
               ((if neg then - n else n)%Z, rest)
        end
      else (0%Z, l)
  | [] => (0%Z, l)
  end.

(** The longest prefix of [l] that is a StrUnsignedDecimalLiteral. *)
Definition readUnsigned (neg : bool) (l : list ascii)
  : option (Numeric * list ascii) :=
  match stripPrefix (list_ascii_of_string "Infinity") l with
  | Some rest => Some (NumInf neg, rest)
  | None =>
      let (int, r1) := span isDigit l in
      let finish frac r2 :=
        let (ex, rest) := readExponent r2 in
        Some (NumDec neg (digitsIn 10 (int ++ frac))
                     (ex - Z.of_nat (List.length frac))%Z, rest) in
      match r1 with
      | c :: r1' =>
          if Ascii.eqb c "." then
            let (frac, r2) := span isDigit r1' in
            match int, frac with
            | [], [] => None
            | _, _ => finish frac r2
            end
          else match int with [] => None | _ => finish [] r1 end
      | [] => match int with [] => None | _ => finish [] r1 end
      end
  end.

(** The longest prefix of [l] that is a StrDecimalLiteral. *)
Definition readDecimal (l : list ascii) : option (Numeric * list ascii) :=
  match l with
  | c :: r => if Ascii.eqb c "-" then readUnsigned true r
              else if Ascii.eqb c "+" then readUnsigned false r
              else readUnsigned false l
  | [] => None
  end.

(** [0x], [0o] and [0b] integer literals. *)
Definition readRadix (l : list ascii) : option Numeric :=
  match l with
  | z :: k :: ds =>
      let lit (p : ascii -> bool) (base : N) :=
        match ds with
        | [] => None
        | _ => if forallb p ds then Some (NumDec false (digitsIn base ds) 0)
               else None
        end in
      if negb (Ascii.eqb z "0") then None
      else if Ascii.eqb k "x" || Ascii.eqb k "X" then lit isHexDigit 16%N
      else if Ascii.eqb k "o" || Ascii.eqb k "O" then
        lit (fun c => isDigit c && (codeOf c <=? 55)) 8%N
      else if Ascii.eqb k "b" || Ascii.eqb k "B" then
        lit (fun c => isDigit c && (codeOf c <=? 49)) 2%N
      else None
  | _ => None
  end.

(** StringToNumber: what [Number(s)] reads. *)
Definition StringToNumber (s : string) : Numeric :=
  match trim (list_ascii_of_string s) with
  | [] => NumDec false 0 0
  | l => match readRadix l with
         | Some n => n
         | None => match readDecimal l with
                   | Some (n, []) => n
                   | _ => NumNaN
                   end
         end
  end.

(** What [parseFloat(s)] reads: the longest decimal literal after leading
    white space. *)
Definition parseFloatLiteral (s : string) : Numeric :=
  match readDecimal (trimStart (list_ascii_of_string s)) with
  | Some (n, _) => n
  | None => NumNaN
  end.

(** The double nearest to [p / q] (ties to even).  The quotient is taken
    with at least two bits more than the format keeps and the remainder is
    folded into a sticky last bit, so that one rounding gives the correctly
    rounded result. *)
Definition roundRatio (neg : bool) (p q : positive) : float :=
  let s := Z.max 0 (58 + Z.log2 (Zpos q) - Z.log2 (Zpos p)) in
  let (n, r) := Z.div_eucl (Zpos p * 2 ^ s) (Zpos q) in
  let m := (2 * n + (if r =? 0 then 0 else 1))%Z in
  SF2Prim (binary_normalize prec emax (if neg then - m else m) (- s - 1) neg).

Definition toDouble (n : Numeric) : float :=
  match n with
  | NumNaN => nan
  | NumInf neg => if neg then neg_infinity else infinity
  | NumDec neg 0%N _ => if neg then neg_zero else zero
  | NumDec neg (Npos m) e =>
      match e with
      | Zneg k => roundRatio neg m (10 ^ k)%positive
      | Z0 => roundRatio neg m 1
      | Zpos k => roundRatio neg (m * 10 ^ k)%positive 1
      end
  end.

Definition Number (s : string) : float := toDouble (StringToNumber s).
Definition parseFloat (s : string) : float := toDouble (parseFloatLiteral s).

(** ToBoolean on a number: [0], [-0] and [NaN] are falsy. *)
Definition truthy (x : float) : bool :=
  negb (PrimFloat.eqb x zero) && PrimFloat.eqb x x.

(** [x || 0] for a property read [x] that may be [undefined]. *)
Definition orZero (x : option float) : float :=
  match x with
  | Some v => if truthy v then v else zero
  | None => zero
  end.

(** [/^0x[a-fA-F0-9]{40}$/.test(s)] *)
Definition isTokenAddress (s : string) : bool :=
  match list_ascii_of_string s with
  | z :: x :: rest =>
      Ascii.eqb z "0" && Ascii.eqb x "x"
      && (List.length rest =? 40) && forallb isHexDigit rest
  | _ => false
  end.

(** The names of the properties every plain object inherits from
    [Object.prototype]. *)
Definition inheritedNames : list string :=
  ["constructor"; "__proto__"; "hasOwnProperty"; "isPrototypeOf";
   "propertyIsEnumerable"; "toLocaleString"; "toString"; "valueOf";
   "__defineGetter__"; "__defineSetter__"; "__lookupGetter__";
   "__lookupSetter__"].

(** The key is written with digits only; the array indices, which an object
    lists before its other keys, are among these. *)
Definition indexLike (k : string) : bool :=
  match list_ascii_of_string k with
  | [] => false
  | l => forallb isDigit l
  end.

(** A key on which a plain object behaves as a map that keeps insertion
    order: it is not index-like and names no inherited property.  Every
    string that starts with [0x] is one. *)
Definition plainKey (k : string) : bool :=
  negb (indexLike k) && negb (existsb (String.eqb k) inheritedNames).

(** A plain object used as a map, its own keys in insertion order, which is
    the order of [Object.entries].  [get] and [put] below describe the
    object on plain keys only: a statement that rests on what the object
    holds or on the order of its keys assumes [plainKey] of the keys
    used. *)
Definition Obj (V : Type) := list (string * V).

(** [o[k]] *)
Fixpoint get {V} (o : Obj V) (k : string) : option V :=
  match o with
  | [] => None
  | (k', v) :: o' => if String.eqb k k' then Some v else get o' k
  end.

(** [o[k] = v]: an existing key keeps its place, a new one goes last. *)
Fixpoint put {V} (o : Obj V) (k : string) (v : V) : Obj V :=
  match o with
  | [] => [(k, v)]
  | (k', v') :: o' =>
      if String.eqb k k' then (k', v) :: o' else (k', v') :: put o' k v
  end.

Definition keys {V} (o : Obj V) : list string := map fst o.

(** [Set.prototype.has] and [Set.prototype.add], elements in insertion
    order. *)
Definition has (s : list string) (k : string) : bool :=
  existsb (String.eqb k) s.

Definition add (s : list string) (k : string) : list string :=
  if has s k then s else s ++ [k].

End JS.

(* ===================================================================== *)
(** * The REST variant: [getTokenSnapshot] *)
(* ===================================================================== *)

Module Snapshot.
Import JS.

Definition LIMIT_PER_PAGE : nat := 100.
Definition DELAY_MS : nat := 10.
Definition EPSILON : float := 1e-10%float.

Record TokenTransaction := { from : string; to : string; value : string }.

Record ApiResponse := { body : option (list TokenTransaction) }.

(** What a rejected [axios.get] carries: an axios error, with the status of
    the response when there was one, or any other exception. *)
Inductive Failure :=
| AxiosError (status : option nat)
| OtherError (message : string).

(** The upstream API: what the request for a page of a token's
    transactions settles to; [response.data] may be missing.  The loop asks
    for each page number at most once, so a function of the page number
    covers every behaviour of the service. *)
Definition Provider := string -> nat -> Failure + option ApiResponse.

(** The arithmetic the ledger is computed in.  [doubles] is what the
    program runs on; [rationals] is the same ledger with exact arithmetic,
    the reading of a statement made up to floating-point error. *)
Record Arith := {
  num : Type;
  amount : string -> num;          (* Number(tx.value) / (10 ** 18) *)
  orZero : option num -> num;      (* x || 0 *)
  minus : num -> num -> num;
  plus : num -> num -> num;
  aboveEpsilon : num -> bool       (* value > EPSILON *)
}.

Definition doubles : Arith := {|
  num := float;
  amount v := (JS.Number v / 1e18)%float;
  orZero := JS.orZero;
  minus := PrimFloat.sub;
  plus := PrimFloat.add;
  aboveEpsilon v := (EPSILON <? v)%float
|}.

(** The rational a decimal numeral denotes; [NaN] and the infinities
    denote none. *)
Definition exactValue (n : Numeric) : option Qc :=
  match n with
  | NumDec neg m e =>
      let q := (inject_Z (Z.of_N m) * Qpower (inject_Z 10) e)%Q in
      Some (Q2Qc (if neg then Qopp q else q))
  | _ => None
  end.

Definition exactEpsilon : Qc := Q2Qc (1 # 10 ^ 10).

(** In exact arithmetic [0] is the only falsy number, so [x || 0] is [x]
    when [x] is there. *)
Definition rationals : Arith := {|
  num := Qc;
  amount v :=
    match exactValue (StringToNumber v) with
    | Some q => (q / Q2Qc (inject_Z (10 ^ 18)))%Qc
    | None => 0%Qc
    end;
  orZero x := match x with Some q => q | None => 0%Qc end;
  minus := Qcminus;
  plus := Qcplus;
  aboveEpsilon v :=
    match (exactEpsilon ?= v)%Qc with Lt => true | _ => false end
|}.

(** ** The ledger *)

Section Ledger.
Context (A : Arith).

Record Ledger := {
  uniqueAddresses : list string;
  balances : Obj (num A)
}.

Definition emptyLedger : Ledger :=
  {| uniqueAddresses := []; balances := [] |}.

(** The callback of [response.data.body.forEach]. *)
Definition processTx (st : Ledger) (tx : TokenTransaction) : Ledger :=
  let u := add (add (uniqueAddresses st) (from tx)) (to tx) in
  let v := amount A (value tx) in
  let b1 := put (balances st) (from tx)
                (minus A (orZero A (get (balances st) (from tx))) v) in
  let b2 := put b1 (to tx) (plus A (orZero A (get b1 (to tx))) v) in
  {| uniqueAddresses := u; balances := b2 |}.

Definition aggregate (st : Ledger) (txs : list TokenTransaction) : Ledger :=
  fold_left processTx txs st.

(** ** Effects *)

Inductive Line :=
| Header
| Row (address : string) (balance : num A).

Inductive Event :=
| Get (tokenAddress : string) (pageNumber limit : nat)
| Wait (ms : nat)
| CreateWriteStream
| Write (l : Line)
| EndStream.

Inductive Error :=
| InvalidTokenAddressFormat
| RateLimitExceeded
| Rethrown (f : Failure).

Inductive Outcome :=
| Returned (addresses : list string)
| Thrown (e : Error).

(** [response.data && response.data.body && response.data.body.length > 0] *)
Definition nonEmptyBody (data : option ApiResponse)
  : option (list TokenTransaction) :=
  match data with
  | Some {| body := Some (tx :: txs) |} => Some (tx :: txs)
  | _ => None
  end.

(** The [while (hasMoreData)] loop.  It has no bound of its own; [fuel]
    bounds the number of iterations and [None] means the bound was
    reached. *)
Fixpoint fetchPages (provider : Provider) (tokenAddress : string)
  (fuel pageNumber : nat) (st : Ledger)
  : option (list Event * (Failure + Ledger)) :=
  match fuel with
  | 0 => None
  | S fuel' =>
      let request := Get tokenAddress pageNumber LIMIT_PER_PAGE in
      match provider tokenAddress pageNumber with
      | inl failure => Some ([request], inl failure)
      | inr data =>
          match nonEmptyBody data with
          | Some txs =>
              let st' := aggregate st txs in
              if List.length txs <? LIMIT_PER_PAGE
              then Some ([request; Wait DELAY_MS], inr st')
              else
                match fetchPages provider tokenAddress fuel'
                                 (S pageNumber) st' with
                | Some (evs, r) =>
                    Some (request :: Wait DELAY_MS :: evs, r)
                | None => None
                end
          | None => Some ([request], inr st)
          end
      end
  end.

(** [Object.entries(balances).filter(([_, value]) => value > EPSILON)] *)
Definition holders (b : Obj (num A)) : Obj (num A) :=
  filter (fun e => aboveEpsilon A (snd e)) b.

Definition rows (b : Obj (num A)) : list Event :=
  map (fun e => Write (Row (fst e) (snd e))) (holders b).

(** The [catch] clause. *)
Definition handle (f : Failure) : Error :=
  match f with
  | AxiosError (Some status) =>
      if status =? 429 then RateLimitExceeded else Rethrown f
  | _ => Rethrown f
  end.

(** The argument is [None] when the caller passes [undefined]. *)
Definition getTokenSnapshot (provider : Provider) (fuel : nat)
  (tokenAddress : option string) : option (list Event * Outcome) :=
  match tokenAddress with
  | Some a =>
      if negb (String.eqb a "") && JS.isTokenAddress a then
        match fetchPages provider a fuel 1 emptyLedger with
        | None => None
        | Some (evs, inl failure) =>
            Some (CreateWriteStream :: Write Header :: evs,
                  Thrown (handle failure))
        | Some (evs, inr st) =>
            Some (CreateWriteStream :: Write Header :: evs
                    ++ rows (balances st) ++ [EndStream],
                  Returned (uniqueAddresses st))
        end
      else Some ([], Thrown InvalidTokenAddressFormat)
  | None => Some ([], Thrown InvalidTokenAddressFormat)
  end.

End Ledger.

Arguments uniqueAddresses {A} _.
Arguments balances {A} _.
Arguments Row {A} _ _.
Arguments Get {A} _ _ _.
Arguments Wait {A} _.
Arguments Write {A} _.
Arguments Header {A}.
Arguments CreateWriteStream {A}.
Arguments EndStream {A}.

End Snapshot.

(* ===================================================================== *)
(** * The GraphQL variant: [getTokenHolders] and the balance enricher *)
(* ===================================================================== *)

Module Holders.
Import JS.

Definition BATCH_SIZE : nat := 10.
Definition MAX_RETRIES : nat := 3.
Definition BASE_DELAY_MS : nat := 300.

Record Transfer := { sender : string; receiver : string; time : string }.

Record TokenHolder := { address : string; balance : string }.

(** [BalanceResponse]; every field the optional chains guard may be
    missing.  [addresses] is the field the source calls [address]. *)
Record BalanceEntry := { value : option string }.
Record AddressEntry := { balances : option (list BalanceEntry) }.
Record EthereumData := { addresses : option (list AddressEntry) }.
Record GraphData := { ethereum : option EthereumData }.
Record BalanceResponse := { data : option GraphData }.

(** A rejected [axios.post]. *)
Inductive Failure := RequestFailed (message : string).

(** The balance endpoint: what the lookup of an address for a token settles
    to at a given attempt; the body of the response may be missing.  The
    candidates are the members of a set, so each address is looked up once
    and each of its attempts is made at most once. *)
Definition BalanceService :=
  string -> string -> nat -> Failure + option BalanceResponse.

(** The transfer endpoint: the transfers of
    [response.data.data.ethereum.transfers], or the failure of the request
    or of reading that path. *)
Definition TransferService := string -> Failure + list Transfer.

Inductive Event :=
| Post (address tokenAddress : string) (attempt : nat)
| Sleep (ms : nat).

Definition bind {A B} (x : option A) (f : A -> option B) : option B :=
  match x with Some a => f a | None => None end.

(** [balanceResponse.data?.data?.ethereum?.address?.[0]] *)
Definition firstAddress (body : option BalanceResponse)
  : option AddressEntry :=
  bind body (fun r => bind (data r) (fun d => bind (ethereum d)
    (fun e => bind (addresses e) (fun l => hd_error l)))).

(** [address[0]?.balances?.[0]?.value] *)
Definition firstBalance (e : AddressEntry) : option string :=
  bind (balances e) (fun l => bind (hd_error l) value).

(** The [try] block after the request has succeeded. *)
Definition readHolder (address : string) (body : option BalanceResponse)
  : option TokenHolder :=
  match firstAddress body with
  | None => None
  | Some e =>
      match firstBalance e with
      | Some balance =>
          if negb (String.eqb balance "") && (0 <? parseFloat balance)%float
          then Some {| address := address; balance := balance |}
          else None
      | None => None
      end
  end.

(** The delay before the retry that follows a failed attempt:
    [BASE_DELAY_MS * Math.pow(2, attempt - 1)].  Attempts are numbered
    from 1. *)
Definition backoff (attempt : nat) : nat :=
  BASE_DELAY_MS * 2 ^ (attempt - 1).

Equations? fetchWithRetryFrom (service : BalanceService)
  (address tokenAddress : string) (attempt : nat)
  : list Event * option TokenHolder by wf (MAX_RETRIES - attempt) lt :=
  fetchWithRetryFrom service address tokenAddress attempt
    with service address tokenAddress attempt => {
    | inr body =>
        ([Post address tokenAddress attempt], readHolder address body);
    | inl _ with lt_dec attempt MAX_RETRIES => {
        | left _ =>
            let (evs, r) :=
              fetchWithRetryFrom service address tokenAddress (attempt + 1) in
            (Post address tokenAddress attempt :: Sleep (backoff attempt)
               :: evs, r);
        | right _ => ([Post address tokenAddress attempt], None) } }.
Proof.
  unfold MAX_RETRIES in *.
  destruct attempt as [|[|[|?]]]; simpl; lia.
Qed.

(** [fetchWithRetry(address, tokenAddress)], [attempt] at its default. *)
Definition fetchWithRetry (service : BalanceService)
  (address tokenAddress : string) : list Event * option TokenHolder :=
  fetchWithRetryFrom service address tokenAddress 1.

(** [results.filter(result => result !== null)] *)
Fixpoint nonNull {A} (l : list (option A)) : list A :=
  match l with
  | Some a :: r => a :: nonNull r
  | None :: r => nonNull r
  | [] => []
  end.

(** The lookups of one batch run concurrently and [Promise.all] returns
    their results in the order of the addresses; the events of each lookup
    are kept apart, one list for each address. *)
Definition processBatch (service : BalanceService)
  (addresses : list string) (tokenAddress : string)
  : list (list Event) * list TokenHolder :=
  let results :=
    map (fun a => fetchWithRetry service a tokenAddress) addresses in
  (map fst results, nonNull (map snd results)).

(** [l.slice(i, j)] for [0 <= i <= j]. *)
Definition slice {A} (l : list A) (i j : nat) : list A :=
  firstn (j - i) (skipn i l).

(** [Math.ceil(n / d)] on array lengths, where the division is exact
    enough for the ceiling to be that of the rational quotient. *)
Definition ceilDiv (n d : nat) : nat := (n + (d - 1)) / d.

Definition chunksOf (addresses : list string) : list (list string) :=
  map (fun i => slice addresses (i * BATCH_SIZE)
                      (i * BATCH_SIZE + BATCH_SIZE))
      (seq 0 (ceilDiv (List.length addresses) BATCH_SIZE)).

Inductive BatchEvent :=
| Batch (chunk : list string) (lookups : list (list Event))
| Pause (ms : nat).

(** The [for (const [index, chunk] of chunks.entries())] loop, from the
    chunk of index [index] on; [count] is [chunks.length]. *)
Fixpoint runBatches (service : BalanceService) (tokenAddress : string)
  (count index : nat) (chunks : list (list string))
  : list BatchEvent * list TokenHolder :=
  match chunks with
  | [] => ([], [])
  | chunk :: rest =>
      let (lookups, batchResults) :=
        processBatch service chunk tokenAddress in
      let pause :=
        if index <? count - 1 then [Pause BASE_DELAY_MS] else [] in
      let (evs, holders) :=
        runBatches service tokenAddress count (S index) rest in
      (Batch chunk lookups :: pause ++ evs, batchResults ++ holders)
  end.

Definition fetchAllBalances (service : BalanceService)
  (addresses : list string) (tokenAddress : string)
  : list BatchEvent * list TokenHolder :=
  let chunks := chunksOf addresses in
  runBatches service tokenAddress (List.length chunks) 0 chunks.

(** The callback of [transfers.forEach]. *)
Definition collect (allAddresses : list string) (t : Transfer)
  : list string :=
  add (add allAddresses (sender t)) (receiver t).

Definition csvContent (holders : list TokenHolder) : string :=
  ("Address,Balance" ++ String "010" "" ++
   String.concat (String "010" "")
     (map (fun h => address h ++ "," ++ balance h) holders))%string.

Inductive Effect :=
| Query (tokenAddress : string)
| Enrich (batches : list BatchEvent)
| WriteFile (name content : string).

Inductive Error :=
| InvalidEthereumAddressFormat
| TypeError
| Rethrown (f : Failure).

Inductive Outcome :=
| Returned
| Thrown (e : Error).

(** The argument is [None] when the caller passes [undefined], on which
    [tokenAddress.match] raises a [TypeError]. *)
Definition getTokenHolders (transfers : TransferService)
  (service : BalanceService) (tokenAddress : option string)
  : list Effect * Outcome :=
  match tokenAddress with
  | None => ([], Thrown TypeError)
  | Some a =>
      if isTokenAddress a then
        match transfers a with
        | inl failure => ([Query a], Thrown (Rethrown failure))
        | inr ts =>
            let allAddresses := fold_left collect ts [] in
            let (batches, holdersWithBalance) :=
              fetchAllBalances service allAddresses a in
            ([Query a; Enrich batches;
              WriteFile "token_holders.csv" (csvContent holdersWithBalance)],
             Returned)
        end
      else ([], Thrown InvalidEthereumAddressFormat)
  end.

End Holders.

Module EnricherSamples.
Import JS Holders.

Definition token : string := "0x3da3d8cde7b12cd2cbb688e2655bcacd8946399d".
Definition carol : string := "0xcccccccccccccccccccccccccccccccccccccccc".
Definition dave : string := "0xdddddddddddddddddddddddddddddddddddddddd".

(** A response that reports the balance [v], or none. *)
Definition reply (v : option string) : Failure + option BalanceResponse :=
  inr (Some {| data := Some {| ethereum := Some {| addresses := Some
    [ {| balances := Some [ {| value := v |} ] |} ] |} |} |}).

(** [carol] holds nothing and [dave] five tokens. *)
Definition balanceOf (a : string) : Failure + option BalanceResponse :=
  if String.eqb a carol then reply (Some "0")
  else if String.eqb a dave then reply (Some "5000000000000000000")
  else reply None.

Definition steady : BalanceService := fun a _ _ => balanceOf a.

(** A service whose first two answers to every lookup are failures. *)
Definition flaky : BalanceService :=
  fun a _ attempt =>
    if attempt <? 3 then inl (RequestFailed "timeout") else balanceOf a.

(** A service that never answers. *)
Definition down : BalanceService :=
  fun _ _ _ => inl (RequestFailed "timeout").

(** The transfers behind the candidates [carol] and [dave]. *)
Definition recent : TransferService :=
  fun _ => inr [ {| sender := carol; receiver := dave;
                    time := "2024-01-01T00:00:00Z" |} ].

End EnricherSamples.

(* ===================================================================== *)
(** * Vocabulary of the specification *)
(* ===================================================================== *)

Module Spec.
Import JS Snapshot.

(** [a] is the sender or the receiver of one of the records. *)
Definition occurs (a : string) (txs : list TokenTransaction) : Prop :=
  exists tx, In tx txs /\ (from tx = a \/ to tx = a).

(** The value of the record is a decimal numeral: [Number] reads a finite
    number from it. *)
Definition numericValue (tx : TokenTransaction) : Prop :=
  exactValue (StringToNumber (value tx)) <> None.

(** The sum of all the balances of a ledger. *)
Definition total (b : Obj Qc) : Qc :=
  fold_right (fun e acc => (snd e + acc)%Qc) 0%Qc b.

(** What one record adds to the balance of [a], in exact arithmetic. *)
Definition net (a : string) (tx : TokenTransaction) : Qc :=
  ((if String.eqb a (to tx) then amount rationals (value tx) else 0)
   - (if String.eqb a (from tx) then amount rationals (value tx) else 0))%Qc.

Definition netAll (a : string) (txs : list TokenTransaction) : Qc :=
  fold_right (fun tx acc => (net a tx + acc)%Qc) 0%Qc txs.

(** [balances[a] || 0] in exact arithmetic. *)
Definition read (b : Obj Qc) (a : string) : Qc := orZero rationals (get b a).




(** [0x] followed by 40 hexadecimal characters. *)
Definition WellFormedAddress (s : string) : Prop :=
  exists hex, s = ("0x" ++ string_of_list_ascii hex)%string
              /\ List.length hex = 40
              /\ Forall (fun c => isHexDigit c = true) hex.

Section Pages.
Context {A : Arith} (provider : Provider) (tokenAddress : string).

(** The pages the run asked for, in the order of the requests. *)
Definition requests (evs : list (Event A)) : list nat :=
  flat_map (fun ev => match ev with Get _ p _ => [p] | _ => [] end) evs.

(** The records the response for a page carries in its body: none when the
    request fails, when the response has no data or the data no body. *)
Definition pageBody (p : nat) : list TokenTransaction :=
  match provider tokenAddress p with
  | inr (Some {| body := Some txs |}) => txs
  | _ => []
  end.

(** The page is answered with at least [LIMIT_PER_PAGE] records. *)
Definition fullPage (p : nat) : bool :=
  match provider tokenAddress p with
  | inr _ => LIMIT_PER_PAGE <=? List.length (pageBody p)
  | inl _ => false
  end.

(** The page is answered with fewer than [LIMIT_PER_PAGE] records, with
    none, or without a body. *)
Definition partialPage (p : nat) : bool :=
  match provider tokenAddress p with
  | inr _ => List.length (pageBody p) <? LIMIT_PER_PAGE
  | inl _ => false
  end.

(** The records of pages [1] to [n]. *)
Definition fetched (n : nat) : list TokenTransaction :=
  flat_map pageBody (seq 1 n).

(** The addresses of the rows written to the file. *)
Definition written (evs : list (Event A)) : list string :=
  flat_map (fun ev => match ev with Write (Row a _) => [a] | _ => [] end)
           evs.

(** What the loop leaves when it stops at page [p]. *)
Definition lastEvents (p : nat) : list (Event A) :=
  match pageBody p with
  | [] => [Get tokenAddress p LIMIT_PER_PAGE]
  | _ => [Get tokenAddress p LIMIT_PER_PAGE; Wait DELAY_MS]
  end.

Definition lastResult (p : nat) (st : Ledger A) : Failure + Ledger A :=
  match provider tokenAddress p with
  | inl failure => inl failure
  | inr _ => inr (aggregate A st (pageBody p))
  end.

(** The events and the result of a run that finds [k] full pages from page
    [p] on and then one that is not full. *)
Fixpoint runEvents (k p : nat) : list (Event A) :=
  match k with
  | 0 => lastEvents p
  | S k' => Get tokenAddress p LIMIT_PER_PAGE :: Wait DELAY_MS
              :: runEvents k' (S p)
  end.

Fixpoint runResult (k p : nat) (st : Ledger A) : Failure + Ledger A :=
  match k with
  | 0 => lastResult p st
  | S k' => runResult k' (S p) (aggregate A st (pageBody p))
  end.
End Pages.

(** The events of a run that ends well after [n] pages: the stream is
    opened and the header written, the pages are requested, the rows of the
    finished ledger are written and the stream is closed. *)
Definition successEvents (A : Arith) (provider : Provider)
  (tokenAddress : string) (n : nat) : list (Event A) :=
  CreateWriteStream :: Write Header
    :: runEvents provider tokenAddress (n - 1) 1
    ++ rows A (balances (aggregate A (emptyLedger A)
                                   (fetched provider tokenAddress n)))
    ++ [EndStream].



(** The batches and the pauses of one enrichment. *)
Definition batches (evs : list Holders.BatchEvent) : list (list string) :=
  flat_map (fun ev => match ev with Holders.Batch c _ => [c] | _ => [] end)
           evs.

Definition pauses (evs : list Holders.BatchEvent) : list nat :=
  flat_map (fun ev => match ev with Holders.Pause ms => [ms] | _ => [] end)
           evs.

(** The balance a response reports: [address[0].balances[0].value], when
    every step of the path is there. *)
Definition reportedBalance (body : option Holders.BalanceResponse)
  : option string :=
  Holders.bind (Holders.firstAddress body) Holders.firstBalance.

(** A pause of [BASE_DELAY_MS] follows every batch but the last, and
    nothing else happens. *)
Fixpoint pausedBetween (evs : list Holders.BatchEvent) : bool :=
  match evs with
  | [] => true
  | Holders.Batch _ _ :: rest =>
      match rest with
      | [] => true
      | Holders.Pause ms :: rest' =>
          match rest' with
          | Holders.Batch _ _ :: _ =>
              (ms =? Holders.BASE_DELAY_MS) && pausedBetween rest'
          | _ => false
          end
      | _ => false
      end
  | Holders.Pause _ :: _ => false
  end.

(** [a] is the sender or the receiver of one of the transfers. *)
Definition involved (a : string) (ts : list Holders.Transfer) : Prop :=
  exists t, In t ts /\ (Holders.sender t = a \/ Holders.receiver t = a).

(** The waits of a run, in order. *)
Definition waits {A : Arith} (evs : list (Event A)) : list nat :=
  flat_map (fun ev => match ev with Wait ms => [ms] | _ => [] end) evs.



(** [s.split(sep)] for a separator of one character. *)
Fixpoint splitOn (sep : ascii) (s : string) : list string :=
  match s with
  | EmptyString => [EmptyString]
  | String c r =>
      if Ascii.eqb c sep then EmptyString :: splitOn sep r
      else match splitOn sep r with
           | x :: l => String c x :: l
           | [] => [String c EmptyString]
           end
  end.

Definition lineBreak : ascii := "010"%char.

Definition noLineBreak (s : string) : Prop :=
  ~ In lineBreak (list_ascii_of_string s).

(** The line of a holder in the CSV file. *)
Definition lineOf (h : Holders.TokenHolder) : string :=
  (Holders.address h ++ "," ++ Holders.balance h)%string.

(** The lookup of the address yields a holder record. *)
Definition found (service : Holders.BalanceService) (t a : string) : bool :=
  match snd (Holders.fetchWithRetry service a t) with
  | Some _ => true
  | None => false
  end.



End Spec.

(* ===================================================================== *)
(** * Sample inputs *)
(* ===================================================================== *)

Module Samples.
Import JS Snapshot.

Definition alice : string := "0xaaaaaaaaaaaaaaaaaaaaaaaaaaaaaaaaaaaaaaaa".
Definition bob : string := "0xbbbbbbbbbbbbbbbbbbbbbbbbbbbbbbbbbbbbbbbb".
Definition carol : string := "0xcccccccccccccccccccccccccccccccccccccccc".
Definition dave : string := "0xdddddddddddddddddddddddddddddddddddddddd".


Definition transfer (f t v : string) : TokenTransaction :=
  {| from := f; to := t; value := v |}.

(** 0.1, 0.2 and 0.3 tokens credited to [bob]. *)
Definition credits : list TokenTransaction :=
  [ transfer alice bob "100000000000000000";
    transfer carol bob "200000000000000000";
    transfer dave bob "300000000000000000" ].

(** The same three records, the first one moved to the end. *)
Definition creditsRotated : list TokenTransaction :=
  [ transfer carol bob "200000000000000000";
    transfer dave bob "300000000000000000";
    transfer alice bob "100000000000000000" ].

(** One token from [alice] to [bob]. *)
Definition oneToken : list TokenTransaction :=
  [ transfer alice bob "1000000000000000000" ].


(** A record whose value is not a number, before and after a well-formed
    one. *)
Definition malformedFirst : list TokenTransaction :=
  [ transfer alice bob "n/a"; transfer alice bob "1000000000000000000" ].

Definition malformedLast : list TokenTransaction :=
  [ transfer alice bob "1000000000000000000"; transfer alice bob "n/a" ].

(** The token of the source's example run. *)
Definition token : string := "0x3da3d8cde7b12cd2cbb688e2655bcacd8946399d".

Definition page (txs : list TokenTransaction) : Failure + option ApiResponse :=
  inr (Some {| body := Some txs |}).

(** A service with one page, the transfer of one token. *)
Definition singlePage : Provider :=
  fun _ p => match p with 1 => page oneToken | _ => page [] end.

(** A service with a full first page and one more record on the second. *)
Definition twoPages : Provider :=
  fun _ p =>
    match p with
    | 1 => page (repeat (transfer alice bob "1000000000000000000") 100)
    | 2 => page [transfer bob carol "500000000000000000"]
    | _ => page []
    end.

(** A service that answers the second request with status 429. *)
Definition rateLimited : Provider :=
  fun _ p =>
    match p with
    | 1 => page (repeat (transfer alice bob "1000000000000000000") 100)
    | _ => inl (AxiosError (Some 429))
    end.

(** A service all of whose pages are full. *)
Definition endless : Provider :=
  fun _ _ => page (repeat (transfer alice bob "1000000000000000000") 100).

(** A service that fails on the first request. *)
Definition broken : Provider :=
  fun _ _ => inl (AxiosError (Some 500)).

End Samples.

(* ===================================================================== *)
(** * Objects and sets *)
(* ===================================================================== *)

Module ObjFacts.
Import JS.

Lemma has_In s k : has s k = true <-> In k s.
Proof.
  unfold has. rewrite existsb_exists. split.
  - intros (x & Hx & E). apply String.eqb_eq in E. now subst.
  - intros H. exists k. split; [assumption | apply String.eqb_refl].
Qed.

Lemma In_add s k a : In a (add s k) <-> In a s \/ a = k.
Proof.
  unfold add. destruct (has s k) eqn:E.
  - apply has_In in E. split; [now left | intros [H | ->]; assumption].
  - rewrite in_app_iff. simpl. intuition.
Qed.

Lemma NoDup_add s k : NoDup s -> NoDup (add s k).
Proof.
  intros H. unfold add. destruct (has s k) eqn:E; [assumption |].
  assert (~ In k s) as Hk by (rewrite <- has_In, E; discriminate).
  clear E. induction H as [| x l Hx Hl IH]; simpl.
  - constructor; [intros [] | constructor].
  - constructor.
    + rewrite in_app_iff. simpl. intros [H1 | [H1 | []]]; [tauto |].
      subst. apply Hk. now left.
    + apply IH. intros H1. apply Hk. now right.
Qed.

Section Objects.
Context {V : Type}.
Implicit Types (o : Obj V) (k a : string) (v : V).

Lemma get_put o k v a :
  get (put o k v) a = if String.eqb a k then Some v else get o a.
Proof.
  induction o as [| [k' v'] o IH]; simpl.
  - reflexivity.
  - destruct (String.eqb k k') eqn:E; simpl.
    + apply String.eqb_eq in E. subst k'.
      destruct (String.eqb a k); reflexivity.
    + rewrite IH. destruct (String.eqb a k') eqn:E1; [| reflexivity].
      apply String.eqb_eq in E1. subst k'.
      rewrite String.eqb_sym, E. reflexivity.
Qed.

Lemma keys_put o k v : keys (put o k v) = add (keys o) k.
Proof.
  unfold add, has, keys.
  induction o as [| [k' v'] o IH]; simpl; [reflexivity |].
  destruct (String.eqb k k'); simpl; [reflexivity |].
  rewrite IH. destruct (existsb (String.eqb k) (map fst o)); reflexivity.
Qed.

Lemma get_Some_In o a v : get o a = Some v -> In (a, v) o.
Proof.
  induction o as [| [k' v'] o IH]; simpl; [discriminate |].
  destruct (String.eqb a k') eqn:E.
  - apply String.eqb_eq in E. intros [= ->]. subst. now left.
  - intros H. right. now apply IH.
Qed.

Lemma get_keys o a : get o a <> None <-> In a (keys o).
Proof.
  unfold keys. induction o as [| [k' v'] o IH]; simpl; [tauto |].
  destruct (String.eqb a k') eqn:E.
  - apply String.eqb_eq in E. subst. split; [now left | discriminate].
  - apply String.eqb_neq in E. rewrite IH. split; [tauto |].
    intros [H | H]; [congruence | assumption].
Qed.

(** With distinct keys, an entry is what [get] reads at its key. *)
Lemma In_get o a v : NoDup (keys o) -> In (a, v) o -> get o a = Some v.
Proof.
  unfold keys. induction o as [| [k' v'] o IH]; simpl; [tauto |].
  intros Hnd [H | H].
  - injection H as -> ->. now rewrite String.eqb_refl.
  - inversion Hnd as [| ? ? Hk Ho]; subst.
    destruct (String.eqb a k') eqn:E; [| now apply IH].
    apply String.eqb_eq in E. subst. exfalso. apply Hk.
    apply (in_map fst) in H. exact H.
Qed.
End Objects.

End ObjFacts.


(* ===================================================================== *)
(** * The ledger *)
(* ===================================================================== *)

Module LedgerFacts.
Import JS Snapshot Spec ObjFacts.

Section AnyArithmetic.
Context {A : Arith}.
Implicit Types (st : Ledger A) (tx : TokenTransaction).

Lemma aggregate_app st l1 l2 :
  aggregate A st (l1 ++ l2) = aggregate A (aggregate A st l1) l2.
Proof. unfold aggregate. apply fold_left_app. Qed.

Lemma keys_processTx st tx :
  keys (balances (processTx A st tx))
  = add (add (keys (balances st)) (from tx)) (to tx).
Proof. unfold processTx. simpl. now rewrite !keys_put. Qed.

(** The keys of the balances object are the members of the address set, in
    the same order. *)
Lemma keys_aggregate st txs :
  keys (balances st) = uniqueAddresses st ->
  keys (balances (aggregate A st txs)) = uniqueAddresses (aggregate A st txs).
Proof.
  revert st. induction txs as [| tx txs IH]; intros st H; simpl; [exact H |].
  apply IH. rewrite keys_processTx, H. reflexivity.
Qed.

Lemma In_uniqueAddresses st txs a :
  In a (uniqueAddresses (aggregate A st txs))
  <-> In a (uniqueAddresses st) \/ occurs a txs.
Proof.
  revert st. induction txs as [| tx txs IH]; intros st; simpl.
  - split; [now left | intros [H | (tx & [] & _)]; exact H].
  - rewrite IH. unfold processTx at 1. simpl. rewrite !In_add.
    unfold occurs. simpl. split.
    + intros [[[H | H] | H] | (t & Ht & Ho)].
      * now left.
      * right. exists tx. auto.
      * right. exists tx. auto.
      * right. exists t. auto.
    + intros [H | (t & [<- | Ht] & Ho)].
      * auto.
      * left. destruct Ho as [<- | <-]; auto.
      * right. exists t. auto.
Qed.

Lemma NoDup_uniqueAddresses st txs :
  NoDup (uniqueAddresses st) -> NoDup (uniqueAddresses (aggregate A st txs)).
Proof.
  revert st. induction txs as [| tx txs IH]; intros st H; simpl; [exact H |].
  apply IH. unfold processTx. simpl. now apply NoDup_add, NoDup_add.
Qed.

End AnyArithmetic.

Lemma occurs_Permutation a l1 l2 :
  Permutation l1 l2 -> occurs a l1 -> occurs a l2.
Proof.
  intros HP (tx & Hin & Ho). exists tx. split; [| exact Ho].
  now apply (Permutation_in _ HP).
Qed.

(** ** Exact arithmetic *)

Local Open Scope Qc_scope.

Lemma read_put b k v a :
  read (put b k v) a = if String.eqb a k then v else read b a.
Proof. unfold read. rewrite get_put. now destruct (String.eqb a k). Qed.

Ltac string_cases :=
  repeat match goal with
         | |- context [String.eqb ?x ?y] => destruct (String.eqb_spec x y)
         end;
  subst; try congruence.

Lemma read_processTx (st : Ledger rationals) tx a :
  read (balances (processTx rationals st tx)) a
  = read (balances st) a + net a tx.
Proof.
  unfold read, processTx, net. cbn [balances]. rewrite !get_put.
  generalize (amount rationals (value tx)).
  cbn [minus plus orZero num rationals]. intros v.
  string_cases;
    repeat match goal with E : to tx = from tx |- _ => rewrite E in * end;
    try congruence; ring.
Qed.

Lemma read_aggregate (st : Ledger rationals) txs a :
  read (balances (aggregate rationals st txs)) a
  = read (balances st) a + netAll a txs.
Proof.
  revert st. induction txs as [| tx txs IH]; intros st; simpl.
  - ring.
  - rewrite IH, read_processTx. ring.
Qed.

Lemma netAll_Permutation a l1 l2 :
  Permutation l1 l2 -> netAll a l1 = netAll a l2.
Proof.
  induction 1 as [| x l l' _ IH | x y l | l l' l'' _ IH1 _ IH2]; simpl.
  - reflexivity.
  - now rewrite IH.
  - ring.
  - congruence.
Qed.

Lemma total_put b k v : total (put b k v) = total b - read b k + v.
Proof.
  unfold read. induction b as [| [k' v'] b IH]; simpl.
  - ring.
  - destruct (String.eqb k k'); simpl; [ring | rewrite IH].
    cbn [orZero rationals]. ring.
Qed.

Lemma total_processTx (st : Ledger rationals) tx :
  total (balances (processTx rationals st tx)) = total (balances st).
Proof.
  unfold processTx. cbn [balances]. rewrite !total_put.
  unfold read. generalize (amount rationals (value tx)).
  cbn [minus plus orZero num rationals]. intros v. ring.
Qed.

Lemma total_aggregate (st : Ledger rationals) txs :
  total (balances (aggregate rationals st txs)) = total (balances st).
Proof.
  revert st. induction txs as [| tx txs IH]; intros st; simpl;
    [reflexivity | now rewrite IH, total_processTx].
Qed.

(** A balance is there exactly for the addresses of the set, and it is then
    what [read] gives. *)
Lemma get_read (b : Obj Qc) a :
  get b a = if has (keys b) a then Some (read b a) else None.
Proof.
  unfold read. destruct (get b a) as [q |] eqn:E.
  - assert (In a (keys b)) as H by (apply get_keys; congruence).
    apply has_In in H. now rewrite H.
  - destruct (has (keys b) a) eqn:H; [| reflexivity].
    apply has_In, get_keys in H. congruence.
Qed.

(** ** Order of the records *)

Lemma has_ext s1 s2 a : (In a s1 <-> In a s2) -> has s1 a = has s2 a.
Proof.
  intros H. destruct (has s1 a) eqn:E1, (has s2 a) eqn:E2; try reflexivity.
  - apply has_In, H, has_In in E1. congruence.
  - apply has_In, H, has_In in E2. congruence.
Qed.

Lemma keys_Permutation (A : Arith) l1 l2 a :
  Permutation l1 l2 ->
  In a (keys (balances (aggregate A (emptyLedger A) l1)))
  <-> In a (keys (balances (aggregate A (emptyLedger A) l2))).
Proof.
  intros HP. rewrite !keys_aggregate by reflexivity.
  rewrite !In_uniqueAddresses. simpl.
  split; (intros [[] | H]; right).
  - exact (occurs_Permutation a l1 l2 HP H).
  - exact (occurs_Permutation a l2 l1 (Permutation_sym HP) H).
Qed.

Lemma credits_rotation : Permutation Samples.credits Samples.creditsRotated.
Proof.
  unfold Samples.credits, Samples.creditsRotated.
  match goal with
  | |- Permutation (?x :: ?l) _ => exact (Permutation_cons_append l x)
  end.
Qed.

(** C1, as amended.  For transfer records whose values are decimal
    numerals, and with the balances computed in exact rational arithmetic
    (that is, up to floating-point rounding), processing the same records in
    any order yields the same per-address balance map, and the balances of
    all addresses sum to zero.  In the double arithmetic the program runs
    on, the set of addresses that hold a balance is still the same in any
    order. *)
Theorem ledger_order_independent_exact (l1 l2 : list TokenTransaction) :
  Forall numericValue l1 ->
  Permutation l1 l2 ->
  (forall a,
      get (balances (aggregate rationals (emptyLedger rationals) l1)) a
      = get (balances (aggregate rationals (emptyLedger rationals) l2)) a)
  /\ total (balances (aggregate rationals (emptyLedger rationals) l1)) = 0
  /\ (forall a,
         In a (keys (balances (aggregate doubles (emptyLedger doubles) l1)))
         <-> In a (keys (balances (aggregate doubles (emptyLedger doubles) l2)))).
Proof.
  intros _ HP. split; [| split].
  - intros a.
    pose proof (has_ext _ _ a (keys_Permutation rationals l1 l2 a HP)) as Hk.
    rewrite (get_read (balances (aggregate rationals _ l1))).
    rewrite (get_read (balances (aggregate rationals _ l2))).
    cbn [num rationals] in *. rewrite Hk.
    rewrite !read_aggregate, (netAll_Permutation a l1 l2 HP). reflexivity.
  - rewrite total_aggregate. reflexivity.
  - intros a. now apply keys_Permutation.
Qed.

Lemma ledger_order_independent_exact_witness :
  (forall a,
      get (balances (aggregate rationals (emptyLedger rationals)
                               Samples.credits)) a
      = get (balances (aggregate rationals (emptyLedger rationals)
                                 Samples.creditsRotated)) a)
  /\ total (balances (aggregate rationals (emptyLedger rationals)
                                Samples.credits)) = 0
  /\ (forall a,
         In a (keys (balances (aggregate doubles (emptyLedger doubles)
                                         Samples.credits)))
         <-> In a (keys (balances (aggregate doubles (emptyLedger doubles)
                                             Samples.creditsRotated)))).
Proof.
  apply (ledger_order_independent_exact Samples.credits Samples.creditsRotated).
  - repeat constructor; unfold numericValue; vm_compute; discriminate.
  - exact credits_rotation.
Defined.

Local Close Scope Qc_scope.

(** What the ledger holds for [bob] after the three credits, in the two
    orders. *)
Example credits_balance :
  get (balances (aggregate doubles (emptyLedger doubles) Samples.credits))
      Samples.bob = Some 0.6000000000000001%float
  /\ get (balances (aggregate doubles (emptyLedger doubles)
                              Samples.creditsRotated))
         Samples.bob = Some 0.6%float.
Proof. split; vm_compute; reflexivity. Qed.

(** C1, as stated, fails on doubles: the same three records in two orders
    leave two different balances for their receiver. *)
Lemma ledger_order_matters_in_doubles :
  Permutation Samples.credits Samples.creditsRotated
  /\ get (balances (aggregate doubles (emptyLedger doubles) Samples.credits))
         Samples.bob
     <> get (balances (aggregate doubles (emptyLedger doubles)
                                 Samples.creditsRotated))
            Samples.bob.
Proof.
  split.
  - exact credits_rotation.
  - intros H.
    assert (E := f_equal (fun o => match o with
                                   | Some v => (v =? 0.6)%float
                                   | None => false
                                   end) H).
    vm_compute in E. discriminate.
Qed.

(** A value that is not a number makes the order matter for another reason:
    [NaN || 0] is [0], so a [NaN] balance is forgotten by the next record
    and kept when it comes last. *)
Example malformed_value_order :
  get (balances (aggregate doubles (emptyLedger doubles)
                           Samples.malformedFirst)) Samples.bob
  = Some 1%float
  /\ get (balances (aggregate doubles (emptyLedger doubles)
                              Samples.malformedLast)) Samples.bob
     = Some nan.
Proof. split; vm_compute; reflexivity. Qed.

(** The scenario of the specification: one token from [alice] to [bob]. *)
Example one_token_ledger :
  balances (aggregate doubles (emptyLedger doubles) Samples.oneToken)
  = [(Samples.alice, (-1)%float); (Samples.bob, 1%float)].
Proof. vm_compute. reflexivity. Qed.

End LedgerFacts.

(* ===================================================================== *)
(** * The pagination loop *)
(* ===================================================================== *)

Module PaginationFacts.
Import JS Snapshot Spec ObjFacts LedgerFacts.

Section Loop.
Context {A : Arith} (provider : Provider) (tokenAddress : string).
Implicit Types (st : Ledger A) (p k fuel : nat).

Local Abbreviation run := (fetchPages A provider tokenAddress).
Local Abbreviation full := (fullPage provider tokenAddress).
Local Abbreviation bodyOf := (pageBody provider tokenAddress).
Local Abbreviation request p := (@Get A tokenAddress p LIMIT_PER_PAGE).
Local Abbreviation lastEvents := (@Spec.lastEvents A provider tokenAddress).
Local Abbreviation lastResult := (@Spec.lastResult A provider tokenAddress).
Local Abbreviation runEvents := (@Spec.runEvents A provider tokenAddress).
Local Abbreviation runResult := (@Spec.runResult A provider tokenAddress).

(** One iteration: the page is requested; a full page is folded into the
    ledger and the next page follows, anything else ends the loop. *)
Lemma fetchPages_step fuel p st :
  run (S fuel) p st
  = if full p then
      match run fuel (S p) (aggregate A st (bodyOf p)) with
      | Some (evs, r) => Some (request p :: Wait DELAY_MS :: evs, r)
      | None => None
      end
    else Some (lastEvents p, lastResult p st).
Proof.
  unfold fullPage, Spec.lastEvents, Spec.lastResult, pageBody.
  cbn [fetchPages].
  destruct (provider tokenAddress p) as [failure | [[[[| tx txs] |]] |]];
    try reflexivity.
  cbn [nonEmptyBody]. rewrite Nat.ltb_antisym.
  destruct (LIMIT_PER_PAGE <=? List.length (tx :: txs)); reflexivity.
Qed.

Lemma fetchPages_mono fuel p st x :
  run fuel p st = Some x -> run (S fuel) p st = Some x.
Proof.
  revert p st x. induction fuel as [| fuel IH]; intros p st x H.
  - discriminate.
  - rewrite fetchPages_step in H. rewrite fetchPages_step.
    destruct (full p); [| exact H].
    destruct (run fuel (S p) _) as [[evs r] |] eqn:E; [| discriminate].
    rewrite (IH _ _ _ E). exact H.
Qed.

Lemma fetchPages_more fuel fuel' p st x :
  fuel <= fuel' -> run fuel p st = Some x -> run fuel' p st = Some x.
Proof.
  induction 1 as [| fuel' _ IH]; intros H; [exact H |].
  now apply fetchPages_mono, IH.
Qed.

Lemma fetchPages_complete k p st fuel :
  (forall i, i < k -> full (p + i) = true) ->
  full (p + k) = false ->
  k < fuel ->
  run fuel p st = Some (runEvents k p, runResult k p st).
Proof.
  revert p st fuel. induction k as [| k IH]; intros p st fuel Hfull Hlast Hfuel.
  - destruct fuel as [| fuel]; [lia |].
    rewrite fetchPages_step. rewrite Nat.add_0_r in Hlast. now rewrite Hlast.
  - destruct fuel as [| fuel]; [lia |].
    rewrite fetchPages_step.
    assert (full p = true) as Hp
        by (rewrite <- (Nat.add_0_r p); apply Hfull; lia).
    rewrite Hp.
    rewrite (IH (S p) _ fuel); [reflexivity | | | lia].
    + intros i Hi. replace (S p + i) with (p + S i) by lia. apply Hfull. lia.
    + now replace (S p + k) with (p + S k) by lia.
Qed.

(** A run that ends has found a first page that is not full. *)
Lemma fetchPages_sound fuel p st x :
  run fuel p st = Some x ->
  exists k, k < fuel
            /\ (forall i, i < k -> full (p + i) = true)
            /\ full (p + k) = false
            /\ x = (runEvents k p, runResult k p st).
Proof.
  revert p st x. induction fuel as [| fuel IH]; intros p st x H.
  - discriminate.
  - rewrite fetchPages_step in H. destruct (full p) eqn:Ep.
    + destruct (run fuel (S p) _) as [[evs r] |] eqn:E; [| discriminate].
      destruct (IH _ _ _ E) as (k & Hk & Hfull & Hlast & Hx).
      exists (S k). split; [lia |]. split; [| split].
      * intros [| i] Hi; [now rewrite Nat.add_0_r |].
        replace (p + S i) with (S p + i) by lia. apply Hfull. lia.
      * now replace (p + S k) with (S p + k) by lia.
      * injection Hx as -> ->. now injection H as <-.
    + exists 0. rewrite Nat.add_0_r. repeat split; [lia | lia | exact Ep |].
      now injection H as <-.
Qed.


Lemma requests_runEvents k p : requests (runEvents k p) = seq p (S k).
Proof.
  revert p. induction k as [| k IH]; intros p; simpl.
  - unfold lastEvents. destruct (bodyOf p); reflexivity.
  - now rewrite IH.
Qed.

Lemma written_runEvents k p : written (runEvents k p) = [].
Proof.
  revert p. induction k as [| k IH]; intros p; simpl.
  - unfold lastEvents. destruct (bodyOf p); reflexivity.
  - apply IH.
Qed.

(** The ledger of a run that ends well is the fold of the records of the
    pages it asked for, in the order of the pages. *)
Lemma runResult_ledger k p st st' :
  runResult k p st = inr st' ->
  st' = aggregate A st (flat_map bodyOf (seq p (S k))).
Proof.
  revert p st. induction k as [| k IH]; intros p st H.
  - simpl in *. unfold lastResult in H. rewrite app_nil_r.
    destruct (provider tokenAddress p); [discriminate | now injection H].
  - cbn [runResult] in H. apply IH in H. rewrite H.
    change (seq p (S (S k))) with (p :: seq (S p) (S k)).
    cbn [flat_map]. now rewrite aggregate_app.
Qed.

Lemma runResult_failure k p st failure :
  runResult k p st = inl failure <-> provider tokenAddress (p + k) = inl failure.
Proof.
  revert p st. induction k as [| k IH]; intros p st.
  - simpl. rewrite Nat.add_0_r. unfold lastResult.
    destruct (provider tokenAddress p); split; congruence.
  - cbn [runResult]. rewrite IH. now replace (S p + k) with (p + S k) by lia.
Qed.

End Loop.

End PaginationFacts.

(* ===================================================================== *)
(** * [getTokenSnapshot] *)
(* ===================================================================== *)

Module SnapshotFacts.
Import JS Snapshot Spec ObjFacts LedgerFacts PaginationFacts.

Lemma isTokenAddress_nonempty a :
  isTokenAddress a = true -> negb (String.eqb a "") && isTokenAddress a = true.
Proof.
  intros H. rewrite H, andb_true_r.
  destruct a; [discriminate H | reflexivity].
Qed.

(** ** The dust filter *)





(** ** Pagination *)

Lemma seq_pages n : 1 <= n -> seq 1 n = seq 1 (S (n - 1)).
Proof. intros H. now replace (S (n - 1)) with n by lia. Qed.



(** ** Failures *)

(** C9.  When the request for a page fails, the run fails at once: a
    response with status 429 raises the rate-limit error, any other failure
    is raised again as it came; the failing page was requested once and
    nothing is requested after it. *)
Theorem transport_failure_propagates (provider : Provider)
  (tokenAddress : string) (n fuel : nat) (failure : Failure) :
  isTokenAddress tokenAddress = true ->
  1 <= n ->
  (forall q, 1 <= q < n -> fullPage provider tokenAddress q = true) ->
  provider tokenAddress n = inl failure ->
  n <= fuel ->
  exists evs e,
    getTokenSnapshot doubles provider fuel (Some tokenAddress)
    = Some (evs, Thrown e)
    /\ requests evs = seq 1 n
    /\ (failure = AxiosError (Some 429) -> e = RateLimitExceeded)
    /\ (failure <> AxiosError (Some 429) -> e = Rethrown failure).
Proof.
  intros Hvalid Hn Hfull Hfail Hfuel.
  unfold getTokenSnapshot. rewrite (isTokenAddress_nonempty _ Hvalid).
  rewrite (fetchPages_complete provider tokenAddress (n - 1) 1 _ fuel).
  - assert (runResult provider tokenAddress (n - 1) 1 (emptyLedger doubles)
            = inl failure) as ->.
    { apply runResult_failure. now replace (1 + (n - 1)) with n by lia. }
    eexists _, _. split; [reflexivity |]. split; [| split].
    + cbn [requests flat_map app].
      fold (requests (runEvents (A := doubles) provider tokenAddress (n - 1) 1)).
      rewrite requests_runEvents. now rewrite <- seq_pages.
    + intros ->. reflexivity.
    + intros Hne. destruct failure as [[c |] | msg]; try reflexivity.
      unfold handle. destruct (Nat.eqb_spec c 429); [congruence | reflexivity].
  - intros i Hi. apply Hfull. lia.
  - replace (1 + (n - 1)) with n by lia. unfold fullPage. now rewrite Hfail.
  - lia.
Qed.

Lemma transport_failure_propagates_witness :
  exists evs e,
    getTokenSnapshot doubles Samples.rateLimited 5 (Some Samples.token)
    = Some (evs, Thrown e)
    /\ requests evs = seq 1 2
    /\ (AxiosError (Some 429) = AxiosError (Some 429) -> e = RateLimitExceeded)
    /\ (AxiosError (Some 429) <> AxiosError (Some 429) ->
        e = Rethrown (AxiosError (Some 429))).
Proof.
  apply (transport_failure_propagates Samples.rateLimited Samples.token 2 5
           (AxiosError (Some 429))).
  - reflexivity.
  - lia.
  - intros q Hq. assert (q = 1) as -> by lia. reflexivity.
  - reflexivity.
  - lia.
Defined.

(** ** The returned addresses *)

Lemma requests_app (A : Arith) (l1 l2 : list (Event A)) :
  requests (l1 ++ l2) = requests l1 ++ requests l2.
Proof. apply flat_map_app. Qed.

Lemma written_app (A : Arith) (l1 l2 : list (Event A)) :
  written (l1 ++ l2) = written l1 ++ written l2.
Proof. apply flat_map_app. Qed.

Lemma requests_rows (A : Arith) (b : Obj (num A)) : requests (rows A b) = [].
Proof.
  unfold rows. induction (holders A b) as [| e l IH]; [reflexivity | exact IH].
Qed.

Lemma written_rows (A : Arith) (b : Obj (num A)) :
  written (rows A b) = keys (holders A b).
Proof.
  unfold rows, keys.
  induction (holders A b) as [| e l IH]; [reflexivity |].
  cbn [map written flat_map app]. f_equal. exact IH.
Qed.

Lemma In_keys_holders (A : Arith) (b : Obj (num A)) a :
  In a (keys (holders A b)) -> In a (keys b).
Proof.
  unfold keys, holders. rewrite !in_map_iff.
  intros (e & He & Hin). apply filter_In in Hin. exists e. tauto.
Qed.



(** A run over [n - 1] full pages and a partial one returns, with the ledger
    of the records of those pages. *)
Lemma getTokenSnapshot_success (A : Arith) provider tokenAddress n fuel :
  isTokenAddress tokenAddress = true ->
  1 <= n ->
  (forall q, 1 <= q < n -> fullPage provider tokenAddress q = true) ->
  partialPage provider tokenAddress n = true ->
  n <= fuel ->
  getTokenSnapshot A provider fuel (Some tokenAddress)
  = Some (successEvents A provider tokenAddress n,
          Returned (uniqueAddresses
                      (aggregate A (emptyLedger A)
                                 (fetched provider tokenAddress n)))).
Proof.
  intros Hvalid Hn Hfull Hpart Hfuel.
  assert (exists data, provider tokenAddress n = inr data) as [data Hdata].
  { unfold partialPage in Hpart.
    destruct (provider tokenAddress n) as [? | data]; [discriminate |].
    now exists data. }
  unfold getTokenSnapshot. rewrite (isTokenAddress_nonempty _ Hvalid).
  rewrite (fetchPages_complete provider tokenAddress (n - 1) 1 _ fuel).
  - destruct (runResult provider tokenAddress (n - 1) 1 (emptyLedger A))
      as [failure | st] eqn:E.
    + apply runResult_failure in E.
      replace (1 + (n - 1)) with n in E by lia. congruence.
    + apply runResult_ledger in E. replace (S (n - 1)) with n in E by lia.
      fold (fetched provider tokenAddress n) in E. subst st. reflexivity.
  - intros i Hi. apply Hfull. lia.
  - replace (1 + (n - 1)) with n by lia. unfold fullPage, partialPage in *.
    rewrite Hdata in *. apply Nat.ltb_lt in Hpart. apply Nat.leb_gt. exact Hpart.
  - lia.
Qed.

Lemma requests_successEvents (A : Arith) provider tokenAddress n :
  1 <= n -> requests (successEvents A provider tokenAddress n) = seq 1 n.
Proof.
  intros Hn. unfold successEvents. cbn [requests flat_map app].
  fold (requests (runEvents (A := A) provider tokenAddress (n - 1) 1
                  ++ rows A (balances (aggregate A (emptyLedger A)
                                         (fetched provider tokenAddress n)))
                  ++ [EndStream])).
  rewrite !requests_app, requests_runEvents, requests_rows.
  cbn [requests flat_map app]. rewrite app_nil_r. now rewrite <- seq_pages.
Qed.

Lemma written_successEvents (A : Arith) provider tokenAddress n :
  written (successEvents A provider tokenAddress n)
  = keys (holders A (balances (aggregate A (emptyLedger A)
                                         (fetched provider tokenAddress n)))).
Proof.
  unfold successEvents. cbn [written flat_map app].
  fold (written (runEvents (A := A) provider tokenAddress (n - 1) 1
                 ++ rows A (balances (aggregate A (emptyLedger A)
                                        (fetched provider tokenAddress n)))
                 ++ [EndStream])).
  rewrite !written_app, written_runEvents, written_rows.
  cbn [written flat_map app]. now rewrite app_nil_r.
Qed.





(** C10.  A run that ends well returns the set, without repetition, of
    every address that is the sender or the receiver of a record of the
    pages it fetched, whatever the final balance of the address (zero,
    negative or below [EPSILON]); every address written to the CSV file is
    among the returned ones. *)
Theorem snapshot_returns_every_address (provider : Provider)
  (tokenAddress : string) (n fuel : nat) :
  isTokenAddress tokenAddress = true ->
  1 <= n ->
  (forall q, 1 <= q < n -> fullPage provider tokenAddress q = true) ->
  partialPage provider tokenAddress n = true ->
  n <= fuel ->
  exists evs addresses,
    getTokenSnapshot doubles provider fuel (Some tokenAddress)
    = Some (evs, Returned addresses)
    /\ requests evs = seq 1 n
    /\ NoDup addresses
    /\ (forall a, In a addresses
                  <-> occurs a (fetched provider tokenAddress n))
    /\ (forall a, In a (written evs) -> In a addresses).
Proof.
  intros Hvalid Hn Hfull Hpart Hfuel. eexists _, _.
  split; [exact (getTokenSnapshot_success doubles provider tokenAddress n
                   fuel Hvalid Hn Hfull Hpart Hfuel) |].
  split; [now apply requests_successEvents |]. split; [| split].
  - apply NoDup_uniqueAddresses. constructor.
  - intros a. rewrite In_uniqueAddresses. simpl. tauto.
  - intros a Ha. rewrite written_successEvents in Ha.
    apply In_keys_holders in Ha.
    rewrite keys_aggregate in Ha by reflexivity. exact Ha.
Qed.

Lemma snapshot_returns_every_address_witness :
  exists evs addresses,
    getTokenSnapshot doubles Samples.singlePage 1 (Some Samples.token)
    = Some (evs, Returned addresses)
    /\ requests evs = seq 1 1
    /\ NoDup addresses
    /\ (forall a, In a addresses
                  <-> occurs a (fetched Samples.singlePage Samples.token 1))
    /\ (forall a, In a (written evs) -> In a addresses).
Proof.
  apply (snapshot_returns_every_address Samples.singlePage Samples.token 1 1).
  - reflexivity.
  - lia.
  - intros q Hq. lia.
  - reflexivity.
  - lia.
Defined.

(** The scenario of the specification: one token from [alice] to [bob]
    gives one row, for [bob]; both addresses are returned, [alice] with her
    negative balance too. *)
Example single_page_run :
  getTokenSnapshot doubles Samples.singlePage 1 (Some Samples.token)
  = Some ([CreateWriteStream; Write Header;
           Get Samples.token 1 100; Wait 10;
           Write (@Row doubles Samples.bob 1%float); EndStream],
          Returned [Samples.alice; Samples.bob]).
Proof. reflexivity. Qed.

End SnapshotFacts.

(* ===================================================================== *)
(** * The balance enricher *)
(* ===================================================================== *)

Module EnricherFacts.
Import JS Holders Spec ObjFacts.

(** ** One lookup *)

(** The body of [fetchWithRetry], one attempt unfolded. *)
Lemma fetchWithRetryFrom_step service a t n :
  fetchWithRetryFrom service a t n
  = match service a t n with
    | inr body => ([Post a t n], readHolder a body)
    | inl _ =>
        if n <? MAX_RETRIES then
          let (evs, r) := fetchWithRetryFrom service a t (n + 1) in
          (Post a t n :: Sleep (backoff n) :: evs, r)
        else ([Post a t n], None)
    end.
Proof.
  rewrite fetchWithRetryFrom_unfold_eq. unfold fetchWithRetryFrom_unfold.
  destruct (service a t n) as [f | body]; simpl; [| reflexivity].
  destruct (lt_dec n MAX_RETRIES) as [H | H]; simpl.
  - apply Nat.ltb_lt in H. rewrite H. reflexivity.
  - apply Nat.ltb_nlt in H. rewrite H. reflexivity.
Qed.




(** The two scenarios of the specification, on a service that fails twice
    before it answers and on one that never answers. *)
Example flaky_lookup :
  fetchWithRetry EnricherSamples.flaky EnricherSamples.dave
                 EnricherSamples.token
  = ([Post EnricherSamples.dave EnricherSamples.token 1; Sleep 300;
      Post EnricherSamples.dave EnricherSamples.token 2; Sleep 600;
      Post EnricherSamples.dave EnricherSamples.token 3],
     Some {| address := EnricherSamples.dave;
             balance := "5000000000000000000" |}).
Proof. reflexivity. Qed.

Example down_lookup :
  fetchWithRetry EnricherSamples.down EnricherSamples.dave
                 EnricherSamples.token
  = ([Post EnricherSamples.dave EnricherSamples.token 1; Sleep 300;
      Post EnricherSamples.dave EnricherSamples.token 2; Sleep 600;
      Post EnricherSamples.dave EnricherSamples.token 3],
     None).
Proof. reflexivity. Qed.

(** ** Reading a response *)

Lemma readHolder_reported a body :
  readHolder a body
  = match reportedBalance body with
    | Some balance =>
        if (0 <? parseFloat balance)%float
        then Some {| address := a; balance := balance |}
        else None
    | None => None
    end.
Proof.
  unfold readHolder, reportedBalance, bind.
  destruct (firstAddress body) as [e |]; [| reflexivity].
  destruct (firstBalance e) as [b |]; [| reflexivity].
  destruct (String.eqb_spec b ""); [subst b |]; reflexivity.
Qed.



(** What [parseFloat(balance) > 0] says of some balances. *)
Example balances_read :
  map (fun b => (0 <? parseFloat b)%float)
      ["5000000000000000000"; "0"; "0.0"; "-5"; ""; "n/a"; "NaN"; "1e-400";
       "0.5"; " 7"; "5 tokens"]
  = [true; false; false; false; false; false; false; false;
     true; true; true].
Proof. vm_compute. reflexivity. Qed.

(** The scenario of the specification: of the candidates [carol], with
    balance ["0"], and [dave], with balance ["5000000000000000000"], only
    [dave] is exported. *)
Example zero_balance_excluded :
  snd (fetchAllBalances EnricherSamples.steady
         [EnricherSamples.carol; EnricherSamples.dave] EnricherSamples.token)
  = [ {| address := EnricherSamples.dave;
         balance := "5000000000000000000" |} ]
  /\ getTokenHolders EnricherSamples.recent EnricherSamples.steady
                     (Some EnricherSamples.token)
     = ([Query EnricherSamples.token;
         Enrich [Batch [EnricherSamples.carol; EnricherSamples.dave]
                       [[Post EnricherSamples.carol EnricherSamples.token 1];
                        [Post EnricherSamples.dave EnricherSamples.token 1]]];
         WriteFile "token_holders.csv"
           (String.concat (String "010" "")
              ["Address,Balance";
               EnricherSamples.dave ++ ",5000000000000000000"])%string],
        Returned).
Proof. split; vm_compute; reflexivity. Qed.

(** ** Batches *)

Lemma slice_chunk {A} (l : list A) i :
  slice l (i * BATCH_SIZE) (i * BATCH_SIZE + BATCH_SIZE)
  = firstn BATCH_SIZE (skipn (i * BATCH_SIZE) l).
Proof.
  unfold slice. f_equal. lia.
Qed.

Lemma chunks_succ {A} (l : list A) c :
  map (fun i => firstn BATCH_SIZE (skipn (i * BATCH_SIZE) l)) (seq 0 (S c))
  = firstn BATCH_SIZE l
      :: map (fun i => firstn BATCH_SIZE
                         (skipn (i * BATCH_SIZE) (skipn BATCH_SIZE l)))
             (seq 0 c).
Proof.
  cbn [seq map]. f_equal. rewrite <- seq_shift, map_map.
  apply map_ext. intros i. rewrite skipn_skipn. f_equal. f_equal. lia.
Qed.

Lemma chunks_concat {A} c (l : list A) :
  List.length l <= c * BATCH_SIZE ->
  List.concat (map (fun i => firstn BATCH_SIZE (skipn (i * BATCH_SIZE) l))
                   (seq 0 c)) = l.
Proof.
  revert l. induction c as [| c IH]; intros l H.
  - destruct l; [reflexivity | simpl in H; lia].
  - rewrite chunks_succ. cbn [List.concat]. rewrite IH.
    + apply firstn_skipn.
    + rewrite length_skipn. lia.
Qed.

Lemma ceilDiv_bounds n :
  n <= ceilDiv n BATCH_SIZE * BATCH_SIZE < n + BATCH_SIZE.
Proof.
  unfold ceilDiv, BATCH_SIZE.
  pose proof (Nat.div_mod_eq (n + (10 - 1)) 10) as E.
  pose proof (Nat.mod_upper_bound (n + (10 - 1)) 10 ltac:(lia)) as B.
  lia.
Qed.

Lemma chunksOf_map addresses :
  chunksOf addresses
  = map (fun i => firstn BATCH_SIZE (skipn (i * BATCH_SIZE) addresses))
        (seq 0 (ceilDiv (List.length addresses) BATCH_SIZE)).
Proof. unfold chunksOf. apply map_ext. intros i. apply slice_chunk. Qed.

Lemma runBatches_cons service t count index chunk rest :
  fst (runBatches service t count index (chunk :: rest))
  = Batch chunk (fst (processBatch service chunk t))
      :: (if index <? count - 1 then [Pause BASE_DELAY_MS] else [])
      ++ fst (runBatches service t count (S index) rest).
Proof.
  cbn [runBatches].
  destruct (processBatch service chunk t) as [lookups results].
  destruct (runBatches service t count (S index) rest) as [evs holders].
  reflexivity.
Qed.

Lemma runBatches_events service t count index chunks :
  index + List.length chunks = count ->
  batches (fst (runBatches service t count index chunks)) = chunks
  /\ pauses (fst (runBatches service t count index chunks))
     = repeat BASE_DELAY_MS (List.length chunks - 1)
  /\ pausedBetween (fst (runBatches service t count index chunks)) = true.
Proof.
  revert index. induction chunks as [| chunk rest IH]; intros index H.
  - repeat split.
  - rewrite runBatches_cons. cbn [List.length] in H.
    destruct (IH (S index)) as (Hb & Hp & Hs); [lia |].
    destruct rest as [| next rest'].
    + assert ((index <? count - 1) = false) as ->
          by (apply Nat.ltb_ge; cbn [List.length] in H; lia).
      repeat split.
    + assert ((index <? count - 1) = true) as ->
          by (apply Nat.ltb_lt; cbn [List.length] in H; lia).
      cbn [app batches pauses flat_map].
      fold (batches (fst (runBatches service t count (S index) (next :: rest')))).
      fold (pauses (fst (runBatches service t count (S index) (next :: rest')))).
      rewrite Hb, Hp. split; [reflexivity |]. split.
      * cbn [List.length Nat.sub repeat]. now rewrite Nat.sub_0_r.
      * rewrite runBatches_cons in Hs |- *. cbn [pausedBetween].
        rewrite Nat.eqb_refl. exact Hs.
Qed.

Lemma nth_error_seq_Some s c i j :
  nth_error (seq s c) i = Some j -> i < c /\ j = s + i.
Proof.
  revert s i. induction c as [| c IH]; intros s i H.
  - destruct i; discriminate.
  - destruct i as [| i]; cbn [seq nth_error] in H.
    + injection H as <-. lia.
    + apply IH in H. lia.
Qed.

Lemma chunk_at addresses i chunk :
  nth_error (chunksOf addresses) i = Some chunk ->
  i < ceilDiv (List.length addresses) BATCH_SIZE
  /\ chunk = firstn BATCH_SIZE (skipn (i * BATCH_SIZE) addresses).
Proof.
  rewrite chunksOf_map, nth_error_map.
  destruct (nth_error (seq 0 _) i) as [j |] eqn:E; [| discriminate].
  apply nth_error_seq_Some in E. destruct E as [Hi ->].
  cbn [option_map Nat.add]. intros [= <-]. now split.
Qed.

(** C3.  The candidate list is cut into consecutive batches of
    [BATCH_SIZE = 10] addresses, the last one with what remains: the
    batches processed are those chunks, in order; put end to end they give
    the list back; there are [ceil(n / 10)] of them, each of 1 to 10
    addresses and each but the last of exactly 10.  A pause of
    [BASE_DELAY_MS] follows every batch except the last, so there is one
    pause fewer than there are batches (and none for an empty list).  For 25
    addresses this gives batches of 10, 10 and 5 and two pauses. *)
Theorem batching (service : BalanceService) (addresses : list string)
  (t : string) :
  batches (fst (fetchAllBalances service addresses t)) = chunksOf addresses
  /\ List.concat (chunksOf addresses) = addresses
  /\ List.length (chunksOf addresses)
     = ceilDiv (List.length addresses) BATCH_SIZE
  /\ (forall i chunk,
         nth_error (chunksOf addresses) i = Some chunk ->
         chunk = firstn 10 (skipn (i * 10) addresses)
         /\ 1 <= List.length chunk <= 10
         /\ (S i < List.length (chunksOf addresses) ->
             List.length chunk = 10))
  /\ pausedBetween (fst (fetchAllBalances service addresses t)) = true
  /\ pauses (fst (fetchAllBalances service addresses t))
     = repeat 300 (List.length (chunksOf addresses) - 1)
  /\ (List.length addresses = 25 ->
      map (@List.length string)
          (batches (fst (fetchAllBalances service addresses t)))
      = [10; 10; 5]
      /\ pauses (fst (fetchAllBalances service addresses t)) = [300; 300]).
Proof.
  pose proof (ceilDiv_bounds (List.length addresses)) as [Hup Hlow].
  assert (List.length (chunksOf addresses)
          = ceilDiv (List.length addresses) BATCH_SIZE) as Hlen.
  { rewrite chunksOf_map, length_map. apply length_seq. }
  destruct (runBatches_events service t (List.length (chunksOf addresses)) 0
              (chunksOf addresses) eq_refl) as (Hb & Hp & Hs).
  fold (fetchAllBalances service addresses t) in Hb, Hp, Hs.
  split; [exact Hb |]. split; [| split; [exact Hlen |]].
  - rewrite chunksOf_map. now apply chunks_concat.
  - split; [| split; [exact Hs |]; split; [exact Hp |]].
    + intros i chunk H. apply chunk_at in H. destruct H as [Hi ->].
      rewrite Hlen. unfold BATCH_SIZE in *.
      split; [reflexivity |].
      rewrite length_firstn, length_skipn. lia.
    + intros H25. rewrite Hb, Hp, Hlen.
      rewrite chunksOf_map, H25.
      assert (ceilDiv 25 BATCH_SIZE = 3) as -> by reflexivity.
      cbn [seq map]. rewrite !length_firstn, !length_skipn, H25.
      split; reflexivity.
Qed.

End EnricherFacts.

(* ===================================================================== *)
(** * Addresses *)
(* ===================================================================== *)

Module AddressFacts.
Import JS Spec ObjFacts LedgerFacts SnapshotFacts.

(** ** The validator *)

Lemma isTokenAddress_spec s : isTokenAddress s = true <-> WellFormedAddress s.
Proof.
  unfold isTokenAddress, WellFormedAddress. split.
  - intros H. destruct (list_ascii_of_string s) as [| z [| x rest]] eqn:E;
      try discriminate.
    apply andb_prop in H. destruct H as [H Hhex].
    apply andb_prop in H. destruct H as [H Hlen].
    apply andb_prop in H. destruct H as [Hz Hx].
    apply Ascii.eqb_eq in Hz, Hx. subst z x.
    exists rest. split; [| split].
    + rewrite <- (string_of_list_ascii_of_string s), E. reflexivity.
    + now apply Nat.eqb_eq.
    + apply Forall_forall. now apply forallb_forall.
  - intros (hex & -> & Hlen & Hhex).
    change (list_ascii_of_string ("0x" ++ string_of_list_ascii hex))
      with ("0"%char :: "x"%char
              :: list_ascii_of_string (string_of_list_ascii hex)).
    rewrite list_ascii_of_string_of_list_ascii. cbv beta iota.
    rewrite !Ascii.eqb_refl, Hlen, Nat.eqb_refl. cbn [andb].
    apply forallb_forall. now apply Forall_forall.
Qed.

(** C7, as amended.  For every input string the validators of the two
    programs accept exactly the strings made of [0x] and 40 hexadecimal
    characters of either case: such a string passes on to the fetch, and any
    other string, the empty one among them, makes the program fail with its
    invalid-address error before anything else happens.  [getTokenSnapshot]
    fails in the same way on [undefined]. *)
Theorem validator_accepts_exactly_addresses (s : string) :
  (isTokenAddress s = true <-> WellFormedAddress s)
  /\ (forall provider fuel,
         (WellFormedAddress s ->
          forall evs out,
            Snapshot.getTokenSnapshot Snapshot.doubles provider fuel (Some s)
            = Some (evs, out) ->
            hd_error evs = Some Snapshot.CreateWriteStream
            /\ out <> Snapshot.Thrown Snapshot.InvalidTokenAddressFormat)
         /\ (~ WellFormedAddress s ->
             Snapshot.getTokenSnapshot Snapshot.doubles provider fuel (Some s)
             = Some ([], Snapshot.Thrown Snapshot.InvalidTokenAddressFormat))
         /\ Snapshot.getTokenSnapshot Snapshot.doubles provider fuel None
            = Some ([], Snapshot.Thrown Snapshot.InvalidTokenAddressFormat))
  /\ (forall transfers service,
         (WellFormedAddress s ->
          hd_error (fst (Holders.getTokenHolders transfers service (Some s)))
          = Some (Holders.Query s)
          /\ snd (Holders.getTokenHolders transfers service (Some s))
             <> Holders.Thrown Holders.InvalidEthereumAddressFormat)
         /\ (~ WellFormedAddress s ->
             Holders.getTokenHolders transfers service (Some s)
             = ([], Holders.Thrown Holders.InvalidEthereumAddressFormat))).
Proof.
  split; [apply isTokenAddress_spec |]. split.
  - intros provider fuel. split; [| split; [| reflexivity]].
    + intros Hs evs out. apply isTokenAddress_spec in Hs.
      unfold Snapshot.getTokenSnapshot.
      rewrite (isTokenAddress_nonempty _ Hs).
      destruct (Snapshot.fetchPages _ provider s fuel 1 _)
        as [[evs0 [failure | st]] |]; [| | discriminate];
        intros [= <- <-]; (split; [reflexivity |]); [| discriminate].
      unfold Snapshot.handle.
      destruct failure as [[c |] | msg]; try discriminate.
      destruct (c =? 429); discriminate.
    + intros Hs. rewrite <- isTokenAddress_spec in Hs.
      apply not_true_is_false in Hs.
      unfold Snapshot.getTokenSnapshot. now rewrite Hs, andb_false_r.
  - intros transfers service. split.
    + intros Hs. apply isTokenAddress_spec in Hs.
      unfold Holders.getTokenHolders. rewrite Hs.
      destruct (transfers s) as [failure | ts].
      * split; [reflexivity | discriminate].
      * destruct (Holders.fetchAllBalances service _ s).
        split; [reflexivity | discriminate].
    + intros Hs. rewrite <- isTokenAddress_spec in Hs.
      apply not_true_is_false in Hs.
      unfold Holders.getTokenHolders. now rewrite Hs.
Qed.

(** C7, as stated, fails for [getTokenHolders] on [undefined]: the call of
    [match] on it raises a [TypeError], not the invalid-address error. *)
Lemma undefined_address_type_error :
  Holders.getTokenHolders EnricherSamples.recent EnricherSamples.steady None
  = ([], Holders.Thrown Holders.TypeError)
  /\ snd (Holders.getTokenHolders EnricherSamples.recent
            EnricherSamples.steady None)
     <> Holders.Thrown Holders.InvalidEthereumAddressFormat.
Proof. split; [reflexivity | discriminate]. Qed.

(** What the validator says of some strings. *)
Example validator_samples :
  map isTokenAddress
      ["0x3da3d8cde7b12cd2cbb688e2655bcacd8946399d";
       "0x3DA3D8CDE7B12CD2CBB688E2655BCACD8946399D";
       "0X3da3d8cde7b12cd2cbb688e2655bcacd8946399d";
       "3da3d8cde7b12cd2cbb688e2655bcacd8946399d";
       "0x3da3d8cde7b12cd2cbb688e2655bcacd8946399";
       "0x3da3d8cde7b12cd2cbb688e2655bcacd8946399d0";
       "0x3da3d8cde7b12cd2cbb688e2655bcacd8946399g";
       ""]
  = [true; true; false; false; false; false; false; false].
Proof. reflexivity. Qed.

(** ** Letter case *)

Lemma In_collect ts s0 a :
  In a (fold_left Holders.collect ts s0) <-> In a s0 \/ involved a ts.
Proof.
  revert s0. induction ts as [| t ts IH]; intros s0; cbn [fold_left].
  - split; [now left | intros [H | (t & [] & _)]; exact H].
  - rewrite IH. unfold Holders.collect at 1. rewrite !In_add.
    unfold involved. cbn [In]. split.
    + intros [[[H | H] | H] | (t' & Ht & Ho)].
      * now left.
      * right. exists t. auto.
      * right. exists t. auto.
      * right. exists t'. auto.
    + intros [H | (t' & [<- | Ht] & Ho)].
      * auto.
      * left. destruct Ho as [<- | <-]; auto.
      * right. exists t'. auto.
Qed.




End AddressFacts.

(* ===================================================================== *)
(** * More on [getTokenSnapshot] *)
(* ===================================================================== *)

Module SnapshotExtras.
Import JS Snapshot Spec ObjFacts LedgerFacts PaginationFacts SnapshotFacts.

(** ** A service that never runs out of pages *)

(** X1.  The loop has no bound of its own: when every page the service
    answers is full, the run does not finish, whatever number of iterations
    it is given. *)
Theorem full_pages_forever (provider : Provider) (tokenAddress : string) :
  isTokenAddress tokenAddress = true ->
  (forall p, 1 <= p -> fullPage provider tokenAddress p = true) ->
  forall fuel,
    getTokenSnapshot doubles provider fuel (Some tokenAddress) = None.
Proof.
  intros Hvalid Hall fuel. unfold getTokenSnapshot.
  rewrite (isTokenAddress_nonempty _ Hvalid).
  destruct (fetchPages doubles provider tokenAddress fuel 1 _)
    as [x |] eqn:E; [| reflexivity].
  apply fetchPages_sound in E. destruct E as (k & _ & _ & Hstop & _).
  rewrite Hall in Hstop by lia. discriminate.
Qed.

Lemma full_pages_forever_witness :
  getTokenSnapshot doubles Samples.endless 1000 (Some Samples.token) = None.
Proof.
  refine (full_pages_forever Samples.endless Samples.token _ _ 1000).
  - reflexivity.
  - intros p Hp. reflexivity.
Defined.

(** ** Runs that fail *)

Lemma no_end_in_runEvents (A : Arith) provider tokenAddress k p :
  ~ In EndStream (runEvents (A := A) provider tokenAddress k p).
Proof.
  revert p. induction k as [| k IH]; intros p; cbn [runEvents].
  - unfold lastEvents.
    destruct (pageBody provider tokenAddress p); cbn [In];
      intros H; repeat (destruct H as [H | H]; [discriminate |]); exact H.
  - cbn [In]. intros [H | [H | H]]; [discriminate | discriminate |].
    now apply (IH (S p)).
Qed.

(** X2.  A run that ends with an error has written no row and has not
    closed the stream: after a rejected address nothing at all has happened,
    and after a failed request the file holds its header only. *)
Theorem failed_run_writes_no_row (provider : Provider) (fuel : nat)
  (input : option string) (evs : list (Event doubles)) (e : Error) :
  getTokenSnapshot doubles provider fuel input = Some (evs, Thrown e) ->
  written evs = []
  /\ ~ In EndStream evs
  /\ (e = InvalidTokenAddressFormat -> evs = [])
  /\ (e <> InvalidTokenAddressFormat ->
      exists more, evs = CreateWriteStream :: Write Header :: more).
Proof.
  unfold getTokenSnapshot. destruct input as [a |].
  - destruct (negb (String.eqb a "") && isTokenAddress a).
    + destruct (fetchPages doubles provider a fuel 1 _)
        as [[evs0 [failure | st]] |] eqn:E; try discriminate.
      intros [= <- <-]. apply fetchPages_sound in E.
      destruct E as (k & _ & _ & _ & E). injection E as -> _.
      split; [| split; [| split]].
      * cbn [written flat_map app].
        exact (written_runEvents provider a k 1).
      * cbn [In]. intros [H | [H | H]]; [discriminate | discriminate |].
        now apply (no_end_in_runEvents doubles provider a k 1).
      * unfold handle. destruct failure as [[c |] | msg]; try discriminate.
        destruct (c =? 429); discriminate.
      * intros _. eexists. reflexivity.
    + intros [= <- <-]. repeat split; [intros [] | congruence].
  - intros [= <- <-]. repeat split; [intros [] | congruence].
Qed.

Lemma failed_run_writes_no_row_witness :
  written [CreateWriteStream; Write Header;
           @Get doubles Samples.token 1 100] = []
  /\ ~ In EndStream [CreateWriteStream; Write Header;
                     @Get doubles Samples.token 1 100]
  /\ (Rethrown (AxiosError (Some 500)) = InvalidTokenAddressFormat ->
      [CreateWriteStream; Write Header; @Get doubles Samples.token 1 100]
      = [])
  /\ (Rethrown (AxiosError (Some 500)) <> InvalidTokenAddressFormat ->
      exists more,
        [CreateWriteStream; Write Header; @Get doubles Samples.token 1 100]
        = CreateWriteStream :: Write Header :: more).
Proof.
  apply (failed_run_writes_no_row Samples.broken 1 (Some Samples.token)).
  reflexivity.
Defined.

(** ** The order of the rows *)





(** ** The waits *)

Lemma waits_app (A : Arith) (l1 l2 : list (Event A)) :
  waits (l1 ++ l2) = waits l1 ++ waits l2.
Proof. apply flat_map_app. Qed.

Lemma waits_rows (A : Arith) (b : Obj (num A)) : waits (rows A b) = [].
Proof.
  unfold rows. induction (holders A b) as [| e l IH]; [reflexivity | exact IH].
Qed.

Lemma waits_runEvents (A : Arith) provider tokenAddress k p :
  waits (runEvents (A := A) provider tokenAddress k p)
  = repeat DELAY_MS
      (k + match pageBody provider tokenAddress (p + k) with
           | [] => 0
           | _ => 1
           end).
Proof.
  revert p. induction k as [| k IH]; intros p; cbn [runEvents].
  - rewrite Nat.add_0_r. unfold lastEvents.
    destruct (pageBody provider tokenAddress p); reflexivity.
  - cbn [waits flat_map app].
    fold (waits (runEvents (A := A) provider tokenAddress k (S p))).
    rewrite IH. replace (S p + k) with (p + S k) by lia. reflexivity.
Qed.

(** X4.  In a run that ends well after [n] pages the program waits
    [DELAY_MS = 10] milliseconds after every page that carried records, the
    last one too, and does not wait after a last page without records: [n]
    waits, or [n - 1]. *)
Theorem waits_follow_pages_with_records (provider : Provider)
  (tokenAddress : string) (n fuel : nat) :
  isTokenAddress tokenAddress = true ->
  1 <= n ->
  (forall q, 1 <= q < n -> fullPage provider tokenAddress q = true) ->
  partialPage provider tokenAddress n = true ->
  n <= fuel ->
  exists evs addresses,
    getTokenSnapshot doubles provider fuel (Some tokenAddress)
    = Some (evs, Returned addresses)
    /\ waits evs
       = repeat 10 (match pageBody provider tokenAddress n with
                    | [] => n - 1
                    | _ => n
                    end).
Proof.
  intros Hvalid Hn Hfull Hpart Hfuel. eexists _, _.
  split; [exact (getTokenSnapshot_success doubles provider tokenAddress n
                   fuel Hvalid Hn Hfull Hpart Hfuel) |].
  unfold successEvents. cbn [waits flat_map app].
  fold (waits (runEvents (A := doubles) provider tokenAddress (n - 1) 1
               ++ rows doubles
                    (balances (aggregate doubles (emptyLedger doubles)
                                 (fetched provider tokenAddress n)))
               ++ [EndStream])).
  rewrite !waits_app, waits_runEvents, waits_rows.
  cbn [waits flat_map app]. rewrite app_nil_r.
  replace (1 + (n - 1)) with n by lia.
  change DELAY_MS with 10. f_equal.
  destruct (pageBody provider tokenAddress n); lia.
Qed.

Lemma waits_follow_pages_with_records_witness :
  exists evs addresses,
    getTokenSnapshot doubles Samples.twoPages 2 (Some Samples.token)
    = Some (evs, Returned addresses)
    /\ waits evs
       = repeat 10 (match pageBody Samples.twoPages Samples.token 2 with
                    | [] => 2 - 1
                    | _ => 2
                    end).
Proof.
  apply (waits_follow_pages_with_records Samples.twoPages Samples.token 2 2).
  - reflexivity.
  - lia.
  - intros q Hq. assert (q = 1) as -> by lia. reflexivity.
  - reflexivity.
  - lia.
Defined.

(** ** What a record leaves alone *)



End SnapshotExtras.

(* ===================================================================== *)
(** * More on the balance enricher and [getTokenHolders] *)
(* ===================================================================== *)

Module EnricherExtras.
Import JS Holders Spec ObjFacts EnricherFacts AddressFacts.

(** ** Batches and results *)

Lemma nonNull_app {A} (l1 l2 : list (option A)) :
  nonNull (l1 ++ l2) = nonNull l1 ++ nonNull l2.
Proof.
  induction l1 as [| [a |] l1 IH]; cbn [app nonNull];
    [reflexivity | now rewrite IH | exact IH].
Qed.

Lemma processBatch_app service t l1 l2 :
  snd (processBatch service (l1 ++ l2) t)
  = snd (processBatch service l1 t) ++ snd (processBatch service l2 t).
Proof.
  unfold processBatch. cbn [snd]. now rewrite !map_app, nonNull_app.
Qed.

Lemma runBatches_results service t count index chunks :
  snd (runBatches service t count index chunks)
  = snd (processBatch service (List.concat chunks) t).
Proof.
  revert index. induction chunks as [| chunk rest IH]; intros index.
  - reflexivity.
  - cbn [runBatches List.concat]. rewrite processBatch_app, <- (IH (S index)).
    destruct (processBatch service chunk t) as [lookups results].
    destruct (runBatches service t count (S index) rest) as [evs holders].
    reflexivity.
Qed.

Lemma chunksOf_concat addresses : List.concat (chunksOf addresses) = addresses.
Proof.
  rewrite chunksOf_map. apply chunks_concat.
  apply (ceilDiv_bounds (List.length addresses)).
Qed.

(** A holder record carries the address that was looked up. *)
Lemma readHolder_Some a body h :
  readHolder a body = Some h ->
  address h = a
  /\ reportedBalance body = Some (balance h)
  /\ (0 <? parseFloat (balance h))%float = true.
Proof.
  rewrite readHolder_reported.
  destruct (reportedBalance body) as [b |]; [| discriminate].
  destruct (0 <? parseFloat b)%float eqn:E; [| discriminate].
  intros [= <-]. cbn [address balance]. auto.
Qed.

Lemma fetchWithRetryFrom_Some service a t k n h :
  n + k = MAX_RETRIES ->
  snd (fetchWithRetryFrom service a t n) = Some h ->
  address h = a
  /\ (0 <? parseFloat (balance h))%float = true
  /\ exists c body,
      n <= c <= MAX_RETRIES
      /\ (forall i, n <= i < c -> exists f, service a t i = inl f)
      /\ service a t c = inr body
      /\ reportedBalance body = Some (balance h).
Proof.
  revert n. induction k as [| k IH]; intros n Hn;
    rewrite fetchWithRetryFrom_step;
    destruct (service a t n) as [f | body] eqn:E.
  - assert ((n <? MAX_RETRIES) = false) as -> by (apply Nat.ltb_ge; lia).
    discriminate.
  - cbn [snd]. intros H. apply readHolder_Some in H.
    destruct H as (Ha & Hb & Hp). split; [exact Ha |]. split; [exact Hp |].
    exists n, body. repeat split; try lia; try assumption.
  - assert ((n <? MAX_RETRIES) = true) as -> by (apply Nat.ltb_lt; lia).
    specialize (IH (n + 1) ltac:(lia)).
    destruct (fetchWithRetryFrom service a t (n + 1)) as [evs r].
    cbn [snd] in *. intros H. destruct (IH H) as (Ha & Hp & c & b & Hc & Hf & Hs & Hr).
    split; [exact Ha |]. split; [exact Hp |].
    exists c, b. split; [lia |]. split; [| now split].
    intros i Hi. destruct (Nat.eq_dec i n) as [-> | Hne]; [now exists f |].
    apply Hf. lia.
  - cbn [snd]. intros H. apply readHolder_Some in H.
    destruct H as (Ha & Hb & Hp). split; [exact Ha |]. split; [exact Hp |].
    exists n, body. repeat split; try lia; try assumption.
Qed.

Lemma In_processBatch service t l h :
  In h (snd (processBatch service l t)) ->
  exists a, In a l /\ snd (fetchWithRetry service a t) = Some h.
Proof.
  unfold processBatch. cbn [snd]. rewrite map_map.
  induction l as [| x l IH]; cbn [map nonNull]; [intros [] |].
  destruct (snd (fetchWithRetry service x t)) as [h' |] eqn:E.
  - intros [<- | H].
    + exists x. split; [now left | exact E].
    + destruct (IH H) as (a & Ha & Hs). exists a. split; [now right | exact Hs].
  - intros H. destruct (IH H) as (a & Ha & Hs).
    exists a. split; [now right | exact Hs].
Qed.

Lemma addresses_processBatch service t l :
  map address (snd (processBatch service l t)) = filter (found service t) l.
Proof.
  unfold processBatch, found. cbn [snd]. rewrite map_map.
  induction l as [| x l IH]; [reflexivity |]. cbn [map nonNull filter].
  destruct (snd (fetchWithRetry service x t)) as [h |] eqn:E; [| exact IH].
  cbn [map]. rewrite IH. f_equal.
  unfold fetchWithRetry in E.
  now destruct (fetchWithRetryFrom_Some service x t 2 1 h eq_refl E).
Qed.

Lemma fetchAllBalances_results service addresses t :
  snd (fetchAllBalances service addresses t)
  = snd (processBatch service addresses t).
Proof.
  unfold fetchAllBalances. now rewrite runBatches_results, chunksOf_concat.
Qed.

(** X6.  Cutting the candidates into batches does not change the result:
    the holders are those a single batch of all the candidates would give,
    one for each candidate whose lookup yields a record, in the order of
    the candidates. *)
Theorem batching_keeps_results (service : BalanceService)
  (addresses : list string) (t : string) :
  snd (fetchAllBalances service addresses t)
  = snd (processBatch service addresses t)
  /\ map address (snd (fetchAllBalances service addresses t))
     = filter (found service t) addresses.
Proof.
  split; [apply fetchAllBalances_results |].
  rewrite fetchAllBalances_results. apply addresses_processBatch.
Qed.

(** X7.  Every holder the enricher returns is one of the candidates, with
    the balance string of the first response the service gave for it within
    three attempts, every earlier attempt having failed, and that balance
    reads as a number above zero. *)
Theorem returned_holder_is_positive (service : BalanceService)
  (addresses : list string) (t : string) (h : TokenHolder) :
  In h (snd (fetchAllBalances service addresses t)) ->
  In (address h) addresses
  /\ (0 <? parseFloat (balance h))%float = true
  /\ exists c body,
      1 <= c <= 3
      /\ (forall i, 1 <= i < c -> exists f, service (address h) t i = inl f)
      /\ service (address h) t c = inr body
      /\ reportedBalance body = Some (balance h).
Proof.
  intros H. unfold fetchAllBalances in H.
  rewrite runBatches_results, chunksOf_concat in H.
  apply In_processBatch in H. destruct H as (a & Ha & Hs).
  unfold fetchWithRetry in Hs.
  destruct (fetchWithRetryFrom_Some service a t 2 1 h eq_refl Hs)
    as (<- & Hp & c & body & Hc & Hf & Hb & Hr).
  split; [exact Ha |]. split; [exact Hp |].
  exists c, body. now repeat split.
Qed.

Lemma returned_holder_is_positive_witness :
  In (address {| address := EnricherSamples.dave;
                 balance := "5000000000000000000" |})
     [EnricherSamples.carol; EnricherSamples.dave]
  /\ (0 <? parseFloat (balance {| address := EnricherSamples.dave;
                                  balance := "5000000000000000000" |}))%float
     = true
  /\ exists c body,
      1 <= c <= 3
      /\ (forall i, 1 <= i < c ->
                    exists f,
                      EnricherSamples.flaky
                        (address {| address := EnricherSamples.dave;
                                    balance := "5000000000000000000" |})
                        EnricherSamples.token i = inl f)
      /\ EnricherSamples.flaky
           (address {| address := EnricherSamples.dave;
                       balance := "5000000000000000000" |})
           EnricherSamples.token c = inr body
      /\ reportedBalance body
         = Some (balance {| address := EnricherSamples.dave;
                            balance := "5000000000000000000" |}).
Proof.
  apply (returned_holder_is_positive EnricherSamples.flaky
           [EnricherSamples.carol; EnricherSamples.dave]
           EnricherSamples.token).
  vm_compute. left. reflexivity.
Defined.

(** ** The file of [getTokenHolders] *)

(** The run over a valid address whose transfer query succeeds. *)
Lemma getTokenHolders_run transfers service t ts :
  isTokenAddress t = true ->
  transfers t = inr ts ->
  exists batches,
    getTokenHolders transfers service (Some t)
    = ([Query t; Enrich batches;
        WriteFile "token_holders.csv"
          (csvContent (snd (processBatch service (fold_left collect ts []) t)))],
       Returned).
Proof.
  intros Hvalid Hts. unfold getTokenHolders. rewrite Hvalid, Hts.
  rewrite <- fetchAllBalances_results.
  destruct (fetchAllBalances service (fold_left collect ts []) t)
    as [batches holders].
  now exists batches.
Qed.




(** X10.  When no candidate has a balance to report (none of the lookups
    yields a record, or there is no transfer at all), the run still ends
    well and the file holds the header line and a line break, no row. *)
Theorem no_holder_header_only (transfers : TransferService)
  (service : BalanceService) (t : string) (ts : list Transfer) :
  isTokenAddress t = true ->
  transfers t = inr ts ->
  (forall a, involved a ts -> found service t a = false) ->
  exists batches,
    getTokenHolders transfers service (Some t)
    = ([Query t; Enrich batches;
        WriteFile "token_holders.csv"
                  ("Address,Balance" ++ String lineBreak "")%string],
       Returned).
Proof.
  intros Hvalid Hts Hnone.
  destruct (getTokenHolders_run transfers service t ts Hvalid Hts)
    as [batches Hrun].
  exists batches. rewrite Hrun.
  remember (snd (processBatch service (fold_left collect ts []) t))
    as holders eqn:Hh.
  assert (holders = []) as ->; [| reflexivity].
  assert (map address holders = []) as Hmap.
  { assert (forall l, (forall a, In a l -> found service t a = false) ->
                       filter (found service t) l = []) as Hfilter.
    { induction l as [| a l IH]; intros H; [reflexivity |].
      cbn [filter]. rewrite (H a (or_introl eq_refl)).
      apply IH. intros b Hb. apply H. now right. }
    rewrite Hh, addresses_processBatch. apply Hfilter.
    intros a Ha. apply Hnone. apply In_collect in Ha.
    destruct Ha as [[] | Ha]. exact Ha. }
  destruct holders; [reflexivity | discriminate].
Qed.

Lemma no_holder_header_only_witness :
  exists batches,
    getTokenHolders EnricherSamples.recent EnricherSamples.down
                    (Some EnricherSamples.token)
    = ([Query EnricherSamples.token; Enrich batches;
        WriteFile "token_holders.csv"
                  ("Address,Balance" ++ String lineBreak "")%string],
       Returned).
Proof.
  apply (no_holder_header_only EnricherSamples.recent EnricherSamples.down
           EnricherSamples.token
           [ {| sender := EnricherSamples.carol;
                receiver := EnricherSamples.dave;
                time := "2024-01-01T00:00:00Z" |} ]).
  - reflexivity.
  - reflexivity.
  - intros a _. reflexivity.
Defined.

(** ** The lines of the file *)

Lemma splitOn_nonempty sep s : splitOn sep s <> [].
Proof.
  destruct s as [| c r]; cbn [splitOn]; [discriminate |].
  destruct (Ascii.eqb c sep); [discriminate |].
  destruct (splitOn sep r); discriminate.
Qed.

Lemma noLineBreak_cons c s :
  noLineBreak (String c s) <-> c <> lineBreak /\ noLineBreak s.
Proof.
  unfold noLineBreak. cbn [list_ascii_of_string In]. split.
  - intros H. split; [intros -> | intros H1]; apply H; auto.
  - intros [Hc Hs] [H | H]; [now apply Hc | now apply Hs].
Qed.

Lemma noLineBreak_app s1 s2 :
  noLineBreak s1 -> noLineBreak s2 -> noLineBreak (s1 ++ s2)%string.
Proof.
  intros H1 H2. induction s1 as [| c s1 IH]; [exact H2 |].
  cbn [String.append]. apply noLineBreak_cons in H1. destruct H1 as [Hc H1].
  apply noLineBreak_cons. split; [exact Hc | now apply IH].
Qed.

(** A text without line break is one line. *)
Lemma splitOn_line s : noLineBreak s -> splitOn lineBreak s = [s].
Proof.
  induction s as [| c s IH]; intros H; [reflexivity |].
  apply noLineBreak_cons in H. destruct H as [Hc Hs].
  cbn [splitOn]. apply Ascii.eqb_neq in Hc. rewrite Hc, (IH Hs). reflexivity.
Qed.

(** A line break ends the first line. *)
Lemma splitOn_break s r :
  noLineBreak s ->
  splitOn lineBreak (s ++ String lineBreak r)%string
  = s :: splitOn lineBreak r.
Proof.
  induction s as [| c s IH]; intros H.
  - cbn [String.append splitOn]. now rewrite Ascii.eqb_refl.
  - apply noLineBreak_cons in H. destruct H as [Hc Hs].
    cbn [String.append splitOn]. apply Ascii.eqb_neq in Hc.
    rewrite Hc, (IH Hs). reflexivity.
Qed.

Lemma splitOn_concat (l : list string) :
  l <> [] -> Forall noLineBreak l ->
  splitOn lineBreak (String.concat (String lineBreak "") l) = l.
Proof.
  induction l as [| x l IH]; intros Hne Hl; [congruence |].
  inversion Hl as [| ? ? Hx Hrest]; subst.
  destruct l as [| y l].
  - cbn [String.concat]. now apply splitOn_line.
  - cbn [String.concat] in *. cbn [String.append].
    rewrite (splitOn_break x _ Hx). f_equal. apply IH; [discriminate | exact Hrest].
Qed.

(** X11.  When no address and no balance of the holders contains a line
    break, the file reads back line by line as the header followed by one
    line, address, comma, balance, for each holder, in their order; with no
    holder, the header is followed by one empty line. *)
Theorem csv_reads_back_line_by_line (holders : list TokenHolder) :
  (forall h, In h holders ->
             noLineBreak (address h) /\ noLineBreak (balance h)) ->
  splitOn lineBreak (csvContent holders)
  = "Address,Balance"
      :: match holders with
         | [] => [""]
         | _ => map lineOf holders
         end.
Proof.
  intros H.
  change (csvContent holders)
    with ("Address,Balance"
            ++ String lineBreak
                 (String.concat (String lineBreak "") (map lineOf holders)))%string.
  rewrite (splitOn_break "Address,Balance").
  - f_equal. destruct holders as [| h0 hs] eqn:E; [reflexivity |].
    rewrite <- E in *. rewrite splitOn_concat.
    + reflexivity.
    + rewrite E. discriminate.
    + apply Forall_forall. intros x Hx. apply in_map_iff in Hx.
      destruct Hx as (h & <- & Hh). destruct (H h Hh) as [Ha Hb].
      apply noLineBreak_app; [exact Ha |].
      apply (noLineBreak_app ","); [| exact Hb].
      unfold noLineBreak. cbn. intros [E' | []]. discriminate.
  - unfold noLineBreak. intros Hin. vm_compute in Hin.
    repeat (destruct Hin as [Hin | Hin]; [discriminate |]). exact Hin.
Qed.

Lemma csv_reads_back_line_by_line_witness :
  splitOn lineBreak
    (csvContent [ {| address := EnricherSamples.dave;
                     balance := "5000000000000000000" |} ])
  = "Address,Balance"
      :: map lineOf [ {| address := EnricherSamples.dave;
                         balance := "5000000000000000000" |} ].
Proof.
  apply (csv_reads_back_line_by_line
           [ {| address := EnricherSamples.dave;
                balance := "5000000000000000000" |} ]).
  intros h [<- | []]. split; unfold noLineBreak; intros Hin;
    vm_compute in Hin;
    repeat (destruct Hin as [Hin | Hin]; [discriminate |]); exact Hin.
Defined.

(** The balance is written as the service reported it, and [parseFloat]
    accepts text after the number: a balance that carries a line break
    puts a line of its own making into the file. *)
Example balance_with_line_break :
  (0 <? parseFloat ("5" ++ String lineBreak "0xdead,1"))%float = true
  /\ splitOn lineBreak
       (csvContent [ {| address := EnricherSamples.dave;
                        balance := ("5" ++ String lineBreak "0xdead,1")%string
                     |} ])
     = ["Address,Balance";
        (EnricherSamples.dave ++ ",5")%string;
        "0xdead,1"].
Proof. split; vm_compute; reflexivity. Qed.

End EnricherExtras.
